(** * Genesis AI app: tool orchestration and memory window

    A shallow embedding of the conversation engine of the Genesis AI
    application:

    - [apps/rest_api/v1/routers/llm_router.py]: the chain validator inside
      [format_messages_with_memory], [execute_tool], [_handle_tool_calls],
      [_handle_direct_answer], [save_to_memory] and [llm_with_tools];
    - [src/genesis/infrastructure/database/session_service.py]:
      [SessionService.get_history] and [SessionService.update_history];
    - [src/genesis/infrastructure/llm/qwen_service.py]:
      [get_model_decision] and [get_summary_from_tool_results].

    Python dictionaries that carry messages are records whose fields are
    options ([None] is an absent key); a raised exception is the left
    summand of a sum, or [None] where only its occurrence matters. *)

From Stdlib Require Import ZArith.
From stdpp Require Import base tactics option list strings sorting gmap.

Open Scope string_scope.
Open Scope nat_scope.
Open Scope list_scope.

(** ** Messages *)

(** The [function] entry of a tool call: [{"name": ..., "arguments": ...}]. *)
Record FunctionCall := {
  fn_name : option string;
  fn_arguments : option string
}.

(** One entry of an assistant message's [tool_calls] list. *)
Record ToolCall := {
  tc_id : option string;
  tc_type : option string;
  tc_function : option FunctionCall
}.

(** A message dictionary.  Only the keys the engine reads are kept; the
    values of [role], [content], [tool_call_id] and [name] are text. *)
Record Message := {
  msg_role : option string;
  msg_content : option string;
  msg_tool_calls : option (list ToolCall);
  msg_tool_call_id : option string;
  msg_name : option string
}.

#[global] Instance FunctionCall_eq_dec : EqDecision FunctionCall.
Proof. solve_decision. Defined.
#[global] Instance ToolCall_eq_dec : EqDecision ToolCall.
Proof. solve_decision. Defined.
#[global] Instance Message_eq_dec : EqDecision Message.
Proof. solve_decision. Defined.

(** [{"role": r, "content": c}] *)
Definition plain_message (r c : string) : Message :=
  {| msg_role := Some r; msg_content := Some c; msg_tool_calls := None;
     msg_tool_call_id := None; msg_name := None |}.

(** [msg.get("role") == r] *)
Definition role_is (msg : Message) (r : string) : bool :=
  bool_decide (msg_role msg = Some r).

(** [msg.get("role") == "assistant" and "tool_calls" in msg] *)
Definition assistant_with_tool_calls (msg : Message) : bool :=
  role_is msg "assistant" && bool_decide (is_Some (msg_tool_calls msg)).

(** Python truthiness of [d.get(key)] for a text value: present and not
    empty. *)
Definition truthy (v : option string) : bool :=
  match v with
  | Some s => negb (bool_decide (s = ""))
  | None => false
  end.

(** [tool_call.get("function", {}).get("name")] *)
Definition tool_call_name (tool_call : ToolCall) : option string :=
  match tc_function tool_call with
  | Some f => fn_name f
  | None => None
  end.

(** The matching rule used by both passes:
    [(tool_call_id and tool_call_id == msg.get("tool_call_id")) or
     (tool_name and tool_name == msg.get("name"))]. *)
Definition tool_call_matches (tool_call : ToolCall) (msg : Message) : bool :=
  (truthy (tc_id tool_call)
     && bool_decide (tc_id tool_call = msg_tool_call_id msg))
  || (truthy (tool_call_name tool_call)
        && bool_decide (tool_call_name tool_call = msg_name msg)).

(** Some entry of [tool_calls] matches [msg]. *)
Definition any_call_matches (tool_calls : list ToolCall) (msg : Message) : bool :=
  existsb (fun tool_call => tool_call_matches tool_call msg) tool_calls.

(** ** The chain validator of [format_messages_with_memory] *)

Module Validator.

(** The backward search of pass 1.  [earlier] holds [history_messages[i-1]],
    ..., [history_messages[0]] in that order, as [range(i - 1, -1, -1)]
    visits them. *)
Definition has_valid_assistant (earlier : list Message) (msg : Message) : bool :=
  existsb
    (fun prev_msg =>
       assistant_with_tool_calls prev_msg
       && any_call_matches (default [] (msg_tool_calls prev_msg)) msg)
    earlier.

(** Pass 1: keep every message except a tool message for which the backward
    search finds no assistant.  The search runs over the original list, so
    [earlier] also receives the messages that were dropped. *)
Fixpoint orphan_pass (earlier history_messages : list Message) : list Message :=
  match history_messages with
  | [] => []
  | msg :: rest =>
      if role_is msg "tool" && negb (has_valid_assistant earlier msg)
      then orphan_pass (msg :: earlier) rest
      else msg :: orphan_pass (msg :: earlier) rest
  end.

(** The forward scan of pass 2 over [valid_messages[i+1:]]: a tool message
    is appended when some entry matches it, a user or assistant message ends
    the scan, anything else is stepped over. *)
Fixpoint collect_responses (tool_calls : list ToolCall) (following : list Message)
  : list Message :=
  match following with
  | [] => []
  | next_msg :: rest =>
      if role_is next_msg "tool" then
        if any_call_matches tool_calls next_msg
        then next_msg :: collect_responses tool_calls rest
        else collect_responses tool_calls rest
      else if role_is next_msg "user" || role_is next_msg "assistant" then []
      else collect_responses tool_calls rest
  end.

(** The loop of the incomplete branch: the number of tool messages that
    directly follow position [i]. *)
Fixpoint leading_tools (following : list Message) : nat :=
  match following with
  | [] => 0
  | next_msg :: rest =>
      if role_is next_msg "tool" then S (leading_tools rest) else 0
  end.

(** The assistant message emitted for a complete chain;
    [msg.get("content", "")] supplies the empty text for a missing key. *)
Definition assistant_msg (msg : Message) : Message :=
  {| msg_role := Some "assistant";
     msg_content := Some (default "" (msg_content msg));
     msg_tool_calls := msg_tool_calls msg;
     msg_tool_call_id := None; msg_name := None |}.

(** The tool message emitted for a response; [tool_response["content"]]
    raises [KeyError] when the key is absent. *)
Definition tool_msg (tool_response : Message) : option Message :=
  content ← msg_content tool_response;
  Some {| msg_role := Some "tool"; msg_content := Some content;
          msg_tool_calls := None;
          msg_tool_call_id := msg_tool_call_id tool_response;
          msg_name := msg_name tool_response |}.

(** The plain branch: [{"role": msg["role"], "content": msg["content"]}],
    a [KeyError] when either key is absent. *)
Definition plain_msg (msg : Message) : option Message :=
  r ← msg_role msg;
  content ← msg_content msg;
  Some (plain_message r content).

(** Pass 2.  [skip] is the number of positions the index [i] still has to
    step over because of [i += len(tool_responses)] or of the loop of the
    incomplete branch; [None] is a [KeyError]. *)
Fixpoint chain_pass (skip : nat) (valid_messages : list Message)
  : option (list Message) :=
  match valid_messages with
  | [] => Some []
  | msg :: rest =>
      match skip with
      | S skip' => chain_pass skip' rest
      | O =>
          if assistant_with_tool_calls msg then
            let tool_calls := default [] (msg_tool_calls msg) in
            let tool_responses := collect_responses tool_calls rest in
            if bool_decide (length tool_responses = length tool_calls) then
              tool_msgs ← mapM tool_msg tool_responses;
              final ← chain_pass (length tool_responses) rest;
              Some (assistant_msg msg :: tool_msgs ++ final)
            else chain_pass (leading_tools rest) rest
          else if role_is msg "tool" then chain_pass 0 rest
          else
            plain ← plain_msg msg;
            final ← chain_pass 0 rest;
            Some (plain :: final)
      end
  end.

(** Both passes; [None] when the second pass raises. *)
Definition validate (history_messages : list Message) : option (list Message) :=
  chain_pass 0 (orphan_pass [] history_messages).

End Validator.

(** ** Sample messages *)

Module Samples.

Definition call (id name : string) : ToolCall :=
  {| tc_id := Some id; tc_type := Some "function";
     tc_function := Some {| fn_name := Some name; fn_arguments := Some "{}" |} |}.

Definition assistant_calls (calls : list ToolCall) : Message :=
  {| msg_role := Some "assistant"; msg_content := Some "";
     msg_tool_calls := Some calls; msg_tool_call_id := None; msg_name := None |}.

Definition tool_result (id name content : string) : Message :=
  {| msg_role := Some "tool"; msg_content := Some content;
     msg_tool_calls := None; msg_tool_call_id := Some id; msg_name := Some name |}.

Definition user (content : string) : Message := plain_message "user" content.
Definition assistant (content : string) : Message := plain_message "assistant" content.
Definition system (content : string) : Message := plain_message "system" content.

End Samples.

(** ** Shape of the validator's output *)

Module Shape.
Import Validator.

(** A tool message as the complete branch emits it for an assistant message
    whose entries are [tool_calls]. *)
Definition tool_out (tool_calls : list ToolCall) (m : Message) : Prop :=
  msg_role m = Some "tool" ∧ is_Some (msg_content m)
  ∧ msg_tool_calls m = None ∧ any_call_matches tool_calls m = true.

(** An emitted list is a sequence of plain messages and of chains: one
    assistant message followed by as many tool messages as it has entries,
    each matching some entry. *)
Inductive sanitized : list Message → Prop :=
| sanitized_nil : sanitized []
| sanitized_plain r c rest :
    r ≠ "tool" → sanitized rest → sanitized (plain_message r c :: rest)
| sanitized_chain a tool_calls ts rest :
    assistant_msg a = a →
    msg_tool_calls a = Some tool_calls →
    Forall (tool_out tool_calls) ts →
    length ts = length tool_calls →
    sanitized rest →
    sanitized (a :: ts ++ rest).



End Shape.

(** ** Sample histories *)

Module Histories.
Import Samples.

Definition two_calls : list ToolCall := [call "call_a" "f"; call "call_b" "g"].


(** The entry [call_a] is answered twice, the entry [call_b] never. *)
Definition doubled_history : list Message :=
  [ assistant_calls two_calls;
    tool_result "call_a" "f" "r1"; tool_result "call_a" "f" "r2" ].

(** A system message stands between an assistant message and its answer. *)
Definition interleaved_history : list Message :=
  [ assistant_calls [call "call_a" "f"]; system "note";
    tool_result "call_a" "f" "ra"; user "next" ].

(** An orphan tool message, a complete chain, an incomplete chain. *)
Definition mixed_history : list Message :=
  [ tool_result "call_z" "h" "lost"; user "q1";
    assistant_calls [call "call_a" "f"]; tool_result "call_a" "f" "ra";
    assistant "a1"; user "q2";
    assistant_calls two_calls; tool_result "call_a" "f" "rb";
    user "q3" ].

Definition mixed_final : list Message :=
  [ user "q1";
    assistant_calls [call "call_a" "f"]; tool_result "call_a" "f" "ra";
    assistant "a1"; user "q2"; user "q3" ].

End Histories.

(** ** Stored messages and the history window of [SessionService] *)

(** A row of the [chat_messages] table. *)
Record ChatMessage := {
  cm_id : Z;
  cm_session_id : string;
  cm_role : string;
  cm_content : string;
  cm_created_at : Z
}.

(** What [json.loads] returns: a dictionary, or a value of another kind
    (list, number, text, [null]), on which [.get] raises [AttributeError]. *)
Inductive Json :=
| JDict (d : Message)
| JOther.

(** [ORDER BY created_at DESC, id DESC]: [a] stands before [b]. *)
Definition newest_first (a b : ChatMessage) : Prop :=
  (cm_created_at b < cm_created_at a)%Z
  ∨ (cm_created_at a = cm_created_at b ∧ (cm_id b ≤ cm_id a)%Z).

#[global] Instance newest_first_dec a b : Decision (newest_first a b).
Proof. unfold newest_first. apply _. Defined.

(** All rows of a session, newest first. *)
Definition session_messages_desc (chat_messages : list ChatMessage)
    (session_id : string) : list ChatMessage :=
  merge_sort newest_first
    (filter (λ m, cm_session_id m = session_id) chat_messages).

(** The query of [get_history]: the rows of the session, newest first,
    [LIMIT limit]. *)
Definition select_recent (chat_messages : list ChatMessage)
    (session_id : string) (limit : nat) : list ChatMessage :=
  take limit (session_messages_desc chat_messages session_id).

Module History.
Section GetHistory.

(** [json.loads] on a stored content, [None] for [JSONDecodeError]; and
    [settings.llm.max_history_messages]. *)
Context (json_loads : string → option Json) (max_history_messages : nat).

(** The body of the [try] in the expansion loop: [true] when the oldest row
    of the window belongs to a tool-call chain (the window grows), [false]
    for every other row and for both caught exceptions (the loop breaks). *)
Definition in_chain (oldest_message_model : ChatMessage) : bool :=
  match json_loads (cm_content oldest_message_model) with
  | Some (JDict content_dict) =>
      role_is content_dict "tool"
      || (role_is content_dict "assistant"
          && bool_decide (is_Some (msg_tool_calls content_dict)))
  | Some JOther => false
  | None => false
  end.

(** The same test as a proposition: the content parses to a dictionary that
    is a tool message, or an assistant message with a [tool_calls] key
    (whatever the list under it holds). *)
Definition inside_chain (row : ChatMessage) : Prop :=
  ∃ d, json_loads (cm_content row) = Some (JDict d)
       ∧ (msg_role d = Some "tool"
          ∨ (msg_role d = Some "assistant" ∧ is_Some (msg_tool_calls d))).

(** The expansion loop.  [older] is
    [recent_messages_desc[oldest_message_in_window_index + 1:]] and [oldest]
    is [final_messages_desc[-1]]; the result is what the loop appends. *)
Fixpoint expand (oldest : ChatMessage) (older : list ChatMessage)
  : list ChatMessage :=
  match older with
  | [] => []
  | next :: older' =>
      if in_chain oldest then next :: expand next older' else []
  end.

(** Steps 2 and 3: [final_messages_desc]. *)
Definition window_desc (recent_messages_desc : list ChatMessage)
  : list ChatMessage :=
  let truncated_desc :=
    if bool_decide (max_history_messages < length recent_messages_desc)
    then take max_history_messages recent_messages_desc
    else recent_messages_desc in
  match last truncated_desc with
  | Some oldest =>
      truncated_desc
      ++ expand oldest (drop (length truncated_desc) recent_messages_desc)
  | None => truncated_desc
  end.

(** The rows of the returned window, newest first. *)
Definition window_rows (chat_messages : list ChatMessage) (session_id : string)
  : list ChatMessage :=
  if bool_decide (session_id = "") then []
  else
    match select_recent chat_messages session_id (max_history_messages * 2) with
    | [] => []
    | recent_messages_desc => window_desc recent_messages_desc
    end.

(** The last loop: the parsed content, or for a content that does not parse
    [{"role": msg.role, "content": msg.content}]. *)
Definition message_dict (msg : ChatMessage) : Json :=
  match json_loads (cm_content msg) with
  | Some parsed => parsed
  | None => JDict (plain_message (cm_role msg) (cm_content msg))
  end.

Definition get_history (chat_messages : list ChatMessage) (session_id : string)
  : list Json :=
  message_dict <$> reverse (window_rows chat_messages session_id).

End GetHistory.
End History.

(** ** Tool dispatch *)

(** The message object returned by the model client. *)
Record ModelFunction := {
  mf_name : string;
  mf_arguments : string
}.

Record ModelToolCall := {
  mtc_id : string;
  mtc_function : ModelFunction
}.

Record ModelMessage := {
  mm_content : option string;
  mm_tool_calls : option (list ModelToolCall)
}.

(** What awaiting a tool gives: [str(result)] of the value it returns, or the
    text of the exception it raises. *)
Inductive Outcome :=
| Returned (str_result : string)
| Raised (e : string).

(** [{"tool_call_id": ..., "role": "tool", "name": ..., "content": ...}] *)
Definition tool_message (tool_call_id tool_name content : string) : Message :=
  {| msg_role := Some "tool"; msg_content := Some content;
     msg_tool_calls := None; msg_tool_call_id := Some tool_call_id;
     msg_name := Some tool_name |}.

Module Dispatch.
Section ExecuteTool.

(** [Args] is a parsed argument value; [json_loads_args] is [json.loads] on
    an argument text ([inl] carries the text of the exception);
    [get_tool] is [tool_registry.get_tool], a registered tool being the
    call [tool_to_call( **tool_args )] as a function of the parsed value. *)
Context {Args : Type}.
Context (empty_args : Args)
        (json_loads_args : string → string + Args)
        (get_tool : string → option (Args → Outcome)).

(** [json.loads(tool_args_str) if tool_args_str else {}] *)
Definition parse_arguments (tool_args_str : string) : string + Args :=
  if bool_decide (tool_args_str = "") then inr empty_args
  else json_loads_args tool_args_str.

Definition execute_tool (tool_call : ModelToolCall) : Message :=
  let tool_name := mf_name (mtc_function tool_call) in
  match get_tool tool_name with
  | None =>
      tool_message (mtc_id tool_call) tool_name
        ("错误: 找不到名为 '" +:+ tool_name +:+ "' 的工具。")
  | Some tool_to_call =>
      match parse_arguments (mf_arguments (mtc_function tool_call)) with
      | inl e =>
          tool_message (mtc_id tool_call) tool_name ("执行失败: " +:+ e)
      | inr tool_args =>
          match tool_to_call tool_args with
          | Returned str_result =>
              tool_message (mtc_id tool_call) tool_name str_result
          | Raised e =>
              tool_message (mtc_id tool_call) tool_name ("执行失败: " +:+ e)
          end
      end
  end.

End ExecuteTool.

(** [asyncio.gather]: every task owns the slot of its position; the tasks
    finish in the order [completion], each storing its result in its slot;
    the list of results is read from the slots once all are filled. *)
Section Gather.
Context {A : Type}.

Definition complete (results : list A) (slots : list (option A)) (i : nat)
  : list (option A) :=
  match results !! i with
  | Some r => <[i := Some r]> slots
  | None => slots
  end.

Definition gather (completion : list nat) (results : list A)
  : option (list A) :=
  mapM id (foldl (complete results) (replicate (length results) None) completion).

End Gather.

Section DispatchAll.
Context {Args : Type}.
Context (empty_args : Args)
        (json_loads_args : string → string + Args)
        (get_tool : string → option (Args → Outcome)).

(** [tasks = [execute_tool(tc, session_id) for tc in tool_calls]] followed by
    [await asyncio.gather( *tasks )], the tasks finishing in the order
    [completion]. *)
Definition dispatch (completion : list nat) (tool_calls : list ModelToolCall)
  : option (list Message) :=
  gather completion (execute_tool empty_args json_loads_args get_tool <$> tool_calls).

End DispatchAll.
End Dispatch.

(** ** One turn: [llm_with_tools] *)

(** The database as the turn sees it: the [chat_messages] table and the next
    value of its [id] sequence. *)
Record Database := {
  db_chat_messages : list ChatMessage;
  db_next_id : Z
}.

Record LLMWithToolsRequest := {
  req_query : string;
  req_session_id : string;
  req_system_prompt : option string
}.

Record LLMWithToolsResponse (Args : Type) := {
  resp_success : bool;
  resp_response : string;
  resp_session_id : string;
  resp_tools_called : list (string * Args)
}.
Arguments resp_success {Args}.
Arguments resp_response {Args}.
Arguments resp_session_id {Args}.
Arguments resp_tools_called {Args}.

Record HTTPException := {
  status_code : nat;
  detail : string
}.

(** The fixed text [get_summary_from_tool_results] returns when the summary
    call raises. *)
Definition summary_apology : string :=
  "抱歉，我在总结工具执行结果时遇到了一个问题。".

(** The fallback of [_handle_direct_answer]. *)
Definition no_answer : string := "抱歉，我无法回答。".

Module Turn.
Section Orchestrator.

Context {Args : Type}.
Context (empty_args : Args)
        (json_loads_args : string → string + Args)
        (get_tool : string → option (Args → Outcome)).

(** [json.loads] and [json.dumps(msg, ensure_ascii=False)] on stored
    contents, and [settings.llm.max_history_messages].  [commit_ok db rows]
    says whether the database accepts [db.add_all(rows)] and the commit that
    follows: the limits of the columns ([String(255)] for [session_id],
    [String(50)] for [role]), the connection.  A refused write raises and
    leaves the table as it was. *)
Context (json_loads : string → option Json)
        (json_dumps : Message → string)
        (commit_ok : Database → list ChatMessage → bool)
        (max_history_messages : nat).

(** The model client.  [client_configured] says whether [_get_client] finds
    an API key and a base URL; [decision_api] is the completion call with the
    tool schemas and [summary_api] the one without, [inl] carrying the text
    of a raised exception.  The summary completion's content is text. *)
Context (client_configured : bool)
        (decision_api : list Message → string + ModelMessage)
        (summary_api : list Message → string + string).

Definition get_model_decision (messages : list Message) : string + ModelMessage :=
  if client_configured then decision_api messages
  else inl "LLM服务配置缺失".

Definition get_summary_from_tool_results (messages_for_summary : list Message)
  : string + string :=
  if client_configured then
    match summary_api messages_for_summary with
    | inr summary_content => inr summary_content
    | inl _ => inr summary_apology
    end
  else inl "LLM服务配置缺失".

(** [SessionService.update_history]: one row per message, in order, added
    and committed together; [now] is the server time of the commit.  [None]
    is the exception of a refused write. *)
Definition new_rows (session_id : string) (new_messages : list Message)
    (first_id now : Z) : list ChatMessage :=
  imap (λ i msg,
          {| cm_id := first_id + Z.of_nat i;
             cm_session_id := session_id;
             cm_role := default "unknown" (msg_role msg);
             cm_content := json_dumps msg;
             cm_created_at := now |})
       new_messages.

Definition update_history (session_id : string) (new_messages : list Message)
    (db : Database) (now : Z) : option Database :=
  if bool_decide (session_id = "") || bool_decide (new_messages = [])
  then Some db
  else
    let db_messages :=
      new_rows session_id new_messages (db_next_id db) now in
    if commit_ok db db_messages then
      Some {| db_chat_messages := db_chat_messages db ++ db_messages;
              db_next_id := db_next_id db + Z.of_nat (length new_messages) |}
    else None.

(** [save_to_memory]: the [try] around [update_history]; a failed write is
    logged and the turn goes on with the table unchanged. *)
Definition save_to_memory (session_id : string) (messages : list Message)
    (db : Database) (now : Z) : Database :=
  match update_history session_id messages db now with
  | Some db' => db'
  | None => db
  end.

(** The history part of [format_messages_with_memory].  An entry that is not
    a dictionary makes [msg.get] raise in the first pass; that exception and
    the [KeyError] of the second pass are caught by the surrounding [try],
    and nothing of the history is used. *)
Definition as_dict (entry : Json) : option Message :=
  match entry with
  | JDict d => Some d
  | JOther => None
  end.

Definition history_part (session_id : string) (db : Database) : list Message :=
  let history_messages :=
    History.get_history json_loads max_history_messages
      (db_chat_messages db) session_id in
  default [] (mapM as_dict history_messages ≫= Validator.validate).

Definition format_messages_with_memory (query session_id : string)
    (system_prompt : option string) (db : Database) : list Message :=
  (if truthy system_prompt
   then [plain_message "system" (default "" system_prompt)] else [])
  ++ history_part session_id db
  ++ [plain_message "user" query].

(** The entry recorded for a requested call. *)
Definition tool_call_info (tc : ModelToolCall) : ToolCall :=
  {| tc_id := Some (mtc_id tc);
     tc_type := Some "function";
     tc_function :=
       Some {| fn_name := Some (mf_name (mtc_function tc));
               fn_arguments := Some (mf_arguments (mtc_function tc)) |} |}.

Definition assistant_message_with_tool_calls (model_message : ModelMessage)
  : Message :=
  {| msg_role := Some "assistant";
     msg_content := Some (default "" (mm_content model_message));
     msg_tool_calls :=
       Some (tool_call_info <$> default [] (mm_tool_calls model_message));
     msg_tool_call_id := None; msg_name := None |}.

(** [await asyncio.gather( *tasks )] gives the results in the order of the
    tasks. *)
Definition tool_results (model_message : ModelMessage) : list Message :=
  Dispatch.execute_tool empty_args json_loads_args get_tool
    <$> default [] (mm_tool_calls model_message).

Definition messages_for_summary (model_message : ModelMessage)
    (messages_for_llm : list Message) (current_user_message : Message)
  : list Message :=
  filter (λ msg, msg_role msg = Some "system") messages_for_llm
  ++ [current_user_message]
  ++ [assistant_message_with_tool_calls model_message]
  ++ tool_results model_message.

(** The batch of a turn that took the tool branch and ended with
    [final_answer]: [messages_to_save] of [_handle_tool_calls]. *)
Definition tool_batch (request : LLMWithToolsRequest)
    (model_decision : ModelMessage) (final_answer : string) : list Message :=
  [ plain_message "user" (req_query request);
    assistant_message_with_tool_calls model_decision ]
  ++ tool_results model_decision
  ++ [ plain_message "assistant" final_answer ].

Definition _handle_tool_calls (model_message : ModelMessage)
    (messages_for_llm : list Message) (current_user_message : Message)
  : string + (string * list Message) :=
  match get_summary_from_tool_results
          (messages_for_summary model_message messages_for_llm
             current_user_message) with
  | inl e => inl e
  | inr final_answer =>
      inr (final_answer,
           [current_user_message;
            assistant_message_with_tool_calls model_message]
           ++ tool_results model_message
           ++ [plain_message "assistant" final_answer])
  end.

(** [model_message.content or "..."] *)
Definition _handle_direct_answer (model_message : ModelMessage)
    (current_user_message : Message) : string * list Message :=
  let final_answer :=
    if truthy (mm_content model_message)
    then default "" (mm_content model_message) else no_answer in
  (final_answer,
   [current_user_message; plain_message "assistant" final_answer]).

(** [if model_decision.tool_calls:] *)
Definition requests_tools (model_decision : ModelMessage) : bool :=
  match mm_tool_calls model_decision with
  | Some (_ :: _) => true
  | _ => false
  end.

(** The [tools_called] list of the response; parsing an argument text may
    raise. *)
Fixpoint tools_called (tool_calls : list ModelToolCall)
  : string + list (string * Args) :=
  match tool_calls with
  | [] => inr []
  | tc :: rest =>
      match Dispatch.parse_arguments empty_args json_loads_args
              (mf_arguments (mtc_function tc)) with
      | inl e => inl e
      | inr arguments =>
          match tools_called rest with
          | inl e => inl e
          | inr called => inr ((mf_name (mtc_function tc), arguments) :: called)
          end
      end
  end.

(** The handler's [except Exception]. *)
Definition internal_error (e : string) : HTTPException :=
  {| status_code := 500; detail := "处理请求时发生内部错误: " +:+ e |}.

Definition llm_with_tools (request : LLMWithToolsRequest) (db : Database)
    (now : Z) : (HTTPException + LLMWithToolsResponse Args) * Database :=
  let session_id := req_session_id request in
  let current_user_message := plain_message "user" (req_query request) in
  let messages :=
    format_messages_with_memory (req_query request) session_id
      (req_system_prompt request) db in
  match get_model_decision messages with
  | inl e => (inl (internal_error e), db)
  | inr model_decision =>
      let handled :=
        if requests_tools model_decision
        then _handle_tool_calls model_decision messages current_user_message
        else inr (_handle_direct_answer model_decision current_user_message) in
      match handled with
      | inl e => (inl (internal_error e), db)
      | inr (final_answer, messages_to_save) =>
          let db' := save_to_memory session_id messages_to_save db now in
          match tools_called
                  (if requests_tools model_decision
                   then default [] (mm_tool_calls model_decision) else []) with
          | inl e => (inl (internal_error e), db')
          | inr called =>
              (inr {| resp_success := true;
                      resp_response := final_answer;
                      resp_session_id := session_id;
                      resp_tools_called := called |}, db')
          end
      end
  end.

End Orchestrator.
End Turn.

(** ** A concrete world for examples *)

Module World.
Import Samples.

(** JSON text of a message, keys in the order the engine builds its
    dictionaries, separators as [json.dumps] writes them.  Quotes and
    backslashes inside texts are escaped; the examples use no other
    character that needs escaping. *)
Definition dq : string := String (Ascii.ascii_of_nat 34) EmptyString.

Fixpoint escape (s : string) : string :=
  match s with
  | EmptyString => EmptyString
  | String c s' =>
      if bool_decide (c = Ascii.ascii_of_nat 34) || bool_decide (c = Ascii.ascii_of_nat 92)
      then String (Ascii.ascii_of_nat 92) (String c (escape s'))
      else String c (escape s')
  end.

Definition quoted (s : string) : string := dq +:+ escape s +:+ dq.

Definition member (key value : string) : string := quoted key +:+ ": " +:+ value.

Definition object (members : list (option string)) : string :=
  "{" +:+ String.concat ", " (omap id members) +:+ "}".

Definition dumps_function (f : FunctionCall) : string :=
  object [ (λ v, member "name" (quoted v)) <$> fn_name f;
           (λ v, member "arguments" (quoted v)) <$> fn_arguments f ].

Definition dumps_tool_call (tc : ToolCall) : string :=
  object [ (λ v, member "id" (quoted v)) <$> tc_id tc;
           (λ v, member "type" (quoted v)) <$> tc_type tc;
           (λ f, member "function" (dumps_function f)) <$> tc_function tc ].

Definition sample_dumps (msg : Message) : string :=
  object [ (λ v, member "tool_call_id" (quoted v)) <$> msg_tool_call_id msg;
           (λ v, member "role" (quoted v)) <$> msg_role msg;
           (λ v, member "name" (quoted v)) <$> msg_name msg;
           (λ v, member "content" (quoted v)) <$> msg_content msg;
           (λ tcs, member "tool_calls"
                     ("[" +:+ String.concat ", " (dumps_tool_call <$> tcs) +:+ "]"))
             <$> msg_tool_calls msg ].

(** An assistant message whose [tool_calls] key holds the empty list. *)
Definition assistant_no_calls : Message := assistant_calls [].

(** The messages whose JSON text the example parser knows. *)
Definition known_messages : list Message :=
  [ user "old"; user "q"; assistant "a"; assistant_no_calls;
    assistant_calls [call "call_a" "f"]; tool_result "call_a" "f" "ra" ].

(** The example parser: the inverse of [sample_dumps] on [known_messages],
    two texts that are JSON but no dictionary, and [JSONDecodeError] on
    every other text. *)
Definition sample_loads (s : string) : option Json :=
  match list_find (λ msg, sample_dumps msg = s) known_messages with
  | Some (_, msg) => Some (JDict msg)
  | None =>
      if bool_decide (s = "[]") || bool_decide (s = "123") then Some JOther
      else None
  end.

Definition row (id : Z) (session_id : string) (msg : Message) : ChatMessage :=
  {| cm_id := id; cm_session_id := session_id;
     cm_role := default "unknown" (msg_role msg);
     cm_content := sample_dumps msg; cm_created_at := 1700000000 |}.

(** A row whose content is not JSON. *)
Definition broken_row (id : Z) (session_id : string) : ChatMessage :=
  {| cm_id := id; cm_session_id := session_id; cm_role := "user";
     cm_content := "not json"; cm_created_at := 1700000000 |}.

(** The newest row of session [s] is an assistant message with an empty
    [tool_calls] list. *)
Definition empty_calls_table : list ChatMessage :=
  [ row 1 "s" (user "old"); row 2 "s" assistant_no_calls ].

(** A chain straddles the edge of a window of two messages. *)
Definition straddling_table : list ChatMessage :=
  [ row 1 "s" (user "old"); row 2 "s" (user "q");
    row 3 "s" (assistant_calls [call "call_a" "f"]);
    row 4 "s" (tool_result "call_a" "f" "ra"); row 5 "s" (assistant "a");
    row 6 "other" (user "q") ].

Definition broken_table : list ChatMessage :=
  [ row 1 "s" (user "q"); broken_row 2 "s"; row 3 "s" (assistant "a") ].

(** Tools: the parsed argument value is kept as its text. *)
Definition sample_loads_args (s : string) : string + string :=
  if bool_decide (s = "{oops")
  then inl "Expecting property name enclosed in double quotes"
  else inr s.

Definition two_plus_two : string :=
  "{" +:+ dq +:+ "expression" +:+ dq +:+ ": " +:+ dq +:+ "2+2" +:+ dq +:+ "}".

Definition sample_tools (name : string) : option (string → Outcome) :=
  if bool_decide (name = "calculate") then
    Some (λ args, if bool_decide (args = two_plus_two) then Returned "4"
                  else Raised "calculate() got an unexpected keyword argument")
  else if bool_decide (name = "get_current_datetime") then
    Some (λ _, Returned "2024-01-01 12:00:00")
  else None.

Definition model_call (id name arguments : string) : ModelToolCall :=
  {| mtc_id := id;
     mtc_function := {| mf_name := name; mf_arguments := arguments |} |}.

Definition sample_calls : list ModelToolCall :=
  [ model_call "call_1" "unknown_tool" "";
    model_call "call_2" "calculate" two_plus_two;
    model_call "call_3" "calculate" "{oops" ].

Definition asked_calls : list ModelToolCall :=
  [ model_call "call_1" "unknown_tool" "";
    model_call "call_2" "calculate" two_plus_two ].

(** A model that asks for [asked_calls], and two calls that raise. *)
Definition asked_decision : ModelMessage :=
  {| mm_content := None; mm_tool_calls := Some asked_calls |}.

Definition tool_decision : list Message → string + ModelMessage :=
  λ _, inr asked_decision.

Definition failing_decision : list Message → string + ModelMessage :=
  λ _, inl "Connection error.".

Definition failing_summary : list Message → string + string :=
  λ _, inl "Request timed out.".

(** A database that accepts every write, and one that refuses every
    write. *)
Definition accept_all : Database → list ChatMessage → bool := λ _ _, true.

Definition empty_db : Database :=
  {| db_chat_messages := []; db_next_id := 1 |}.

Definition stored_db : Database :=
  {| db_chat_messages := straddling_table; db_next_id := 7 |}.

Definition sample_request (session_id : string) : LLMWithToolsRequest :=
  {| req_query := "2+2?"; req_session_id := session_id;
     req_system_prompt := Some "you are helpful" |}.

End World.

(** ** The dialogue inside a history *)

Module Dialogue.

(** What a message says in the dialogue: the role and the content of a user
    message, or of an assistant message that has no [tool_calls] key. *)
Definition spoken (msg : Message) : option (string * string) :=
  if role_is msg "user"
     || (role_is msg "assistant"
         && negb (bool_decide (is_Some (msg_tool_calls msg))))
  then r ← msg_role msg; content ← msg_content msg; Some (r, content)
  else None.

Definition dialogue (messages : list Message) : list (string * string) :=
  omap spoken messages.

(** The number of messages that stand before the next user or assistant
    message. *)
Fixpoint until_turn (following : list Message) : nat :=
  match following with
  | [] => 0
  | next_msg :: rest =>
      if role_is next_msg "user" || role_is next_msg "assistant" then 0
      else S (until_turn rest)
  end.

End Dialogue.

(** ** Well-formed tables *)

(** [a] stands before [b] in the order of the conversation. *)
Definition oldest_first : relation ChatMessage := flip newest_first.

(** [id] is the primary key of [chat_messages], drawn from a sequence: the
    ids of the rows are distinct and below the next value of the sequence. *)
Definition db_wf (db : Database) : Prop :=
  NoDup (cm_id <$> db_chat_messages db)
  ∧ Forall (λ row, (cm_id row < db_next_id db)%Z) (db_chat_messages db).

(** ** Sessions: the rest of [SessionService] *)

(** A row of the [chat_sessions] table. *)
Record ChatSession := {
  cs_id : Z;
  cs_session_id : string;
  cs_system_prompt : option string
}.

(** The [chat_sessions] table and the next value of its [id] sequence. *)
Record SessionTable := {
  st_chat_sessions : list ChatSession;
  st_next_id : Z
}.

Module Sessions.
Section Service.

(** [settings.llm.default_system_prompt] *)
Context (default_system_prompt : string).

(** [select(ChatSession).where(ChatSession.session_id == session_id)]
    followed by [.first()]. *)
Definition find_session (session_id : string) (table : SessionTable)
  : option ChatSession :=
  snd <$> list_find (λ s, cs_session_id s = session_id) (st_chat_sessions table).

Definition get_or_create_session (session_id : string) (table : SessionTable)
  : ChatSession * SessionTable :=
  match find_session session_id table with
  | Some session => (session, table)
  | None =>
      let session :=
        {| cs_id := st_next_id table; cs_session_id := session_id;
           cs_system_prompt := Some default_system_prompt |} in
      (session,
       {| st_chat_sessions := st_chat_sessions table ++ [session];
          st_next_id := st_next_id table + 1 |})
  end.

(** [session.system_prompt = requested_prompt] followed by a commit: the row
    with the primary key of [session] gets the new prompt. *)
Definition set_prompt (session : ChatSession) (prompt : string)
    (table : SessionTable) : SessionTable :=
  {| st_chat_sessions :=
       (λ s, if bool_decide (cs_id s = cs_id session)
             then {| cs_id := cs_id s; cs_session_id := cs_session_id s;
                     cs_system_prompt := Some prompt |}
             else s) <$> st_chat_sessions table;
     st_next_id := st_next_id table |}.

(** [session.system_prompt or settings.llm.default_system_prompt] *)
Definition prompt_or_default (system_prompt : option string) : string :=
  if truthy system_prompt then default "" system_prompt
  else default_system_prompt.

Definition get_or_create_session_prompt (session_id : string)
    (table : SessionTable) (requested_prompt : option string)
  : string * SessionTable :=
  let '(session, table) := get_or_create_session session_id table in
  if truthy requested_prompt
     && negb (bool_decide (cs_system_prompt session = requested_prompt))
  then (prompt_or_default requested_prompt,
        set_prompt session (default "" requested_prompt) table)
  else (prompt_or_default (cs_system_prompt session), table).

End Service.

(** [SessionService.clear_session] when the database raises nothing: every
    message row of the session is deleted, the answer is [True]. *)
Definition clear_session (session_id : string) (db : Database)
  : bool * Database :=
  (true,
   {| db_chat_messages :=
        filter (λ m, cm_session_id m ≠ session_id) (db_chat_messages db);
      db_next_id := db_next_id db |}).

End Sessions.

(** ** The tool registry *)

(** A parameter of a registered function: its name, the name of its
    annotation and whether it has a default value. *)
Record Param := {
  p_name : string;
  p_annotation : string;
  p_has_default : bool
}.

(** A function given to [register]: [__name__], the docstring as
    [inspect.getdoc] returns it, the parameters of its signature in order,
    and the call itself. *)
Record Func (Args : Type) := {
  f_name : string;
  f_doc : option string;
  f_params : list Param;
  f_call : Args → Outcome
}.
Arguments f_name {Args}.
Arguments f_doc {Args}.
Arguments f_params {Args}.
Arguments f_call {Args}.

(** [{"type": "function", "function": {"name": ..., "description": ...,
    "parameters": {"type": "object", "properties": ..., "required": ...}}}];
    [properties] maps a parameter name to its JSON type. *)
Record ToolSchema := {
  ts_name : string;
  ts_description : string;
  ts_properties : list (string * string);
  ts_required : list string
}.

Record ToolRegistry (Args : Type) := {
  tools : gmap string (Func Args);
  tool_schemas : list ToolSchema
}.
Arguments tools {Args}.
Arguments tool_schemas {Args}.

Module Registry.

(** [TYPE_MAPPING.get(name, "string")] *)
Definition type_mapping (annotation : string) : string :=
  if bool_decide (annotation = "str") then "string"
  else if bool_decide (annotation = "int") then "integer"
  else if bool_decide (annotation = "float") then "number"
  else if bool_decide (annotation = "bool") then "boolean"
  else "string".

(** [doc.split("\n")[0]] *)
Fixpoint first_line (doc : string) : string :=
  match doc with
  | EmptyString => EmptyString
  | String c rest =>
      if bool_decide (c = Ascii.ascii_of_nat 10) then EmptyString
      else String c (first_line rest)
  end.

Section Register.
Context {Args : Type}.

Definition empty_registry : ToolRegistry Args :=
  {| tools := ∅; tool_schemas := [] |}.

Definition schema_of (func : Func Args) : ToolSchema :=
  {| ts_name := f_name func;
     ts_description :=
       match f_doc func with
       | Some doc => if bool_decide (doc = "") then "" else first_line doc
       | None => ""
       end;
     ts_properties :=
       (λ param, (p_name param, type_mapping (p_annotation param)))
         <$> f_params func;
     ts_required :=
       p_name <$> filter (λ param, p_has_default param = false) (f_params func) |}.

Definition register (registry : ToolRegistry Args) (func : Func Args)
  : ToolRegistry Args :=
  {| tools := <[f_name func := func]> (tools registry);
     tool_schemas := tool_schemas registry ++ [schema_of func] |}.

Definition get_tool (registry : ToolRegistry Args) (name : string)
  : option (Func Args) :=
  tools registry !! name.

Definition get_all_schemas (registry : ToolRegistry Args) : list ToolSchema :=
  tool_schemas registry.

(** The registry after the functions of [funcs] were registered in order,
    as the [@tool] decorators of a module do at import. *)
Definition registered (funcs : list (Func Args)) : ToolRegistry Args :=
  foldl register empty_registry funcs.

(** The lookup [execute_tool] makes: the registered function as a call. *)
Definition callable (registry : ToolRegistry Args) (name : string)
  : option (Args → Outcome) :=
  f_call <$> get_tool registry name.

End Register.
End Registry.

(** ** More of the example world *)

Module MoreWorld.
Import World.

(** A decision that asks for a call whose argument text is not JSON. *)
Definition bad_decision : ModelMessage :=
  {| mm_content := None; mm_tool_calls := Some sample_calls |}.

Definition calculate_func : Func string :=
  {| f_name := "calculate";
     f_doc := Some "Evaluate an expression.";
     f_params := [ {| p_name := "expression"; p_annotation := "str";
                      p_has_default := false |} ];
     f_call := λ args, if bool_decide (args = two_plus_two) then Returned "4"
                       else Raised "bad expression" |}.

Definition search_func : Func string :=
  {| f_name := "search_web";
     f_doc := Some "Search the web.";
     f_params := [ {| p_name := "query"; p_annotation := "str";
                      p_has_default := false |};
                   {| p_name := "num_results"; p_annotation := "int";
                      p_has_default := true |} ];
     f_call := λ _, Returned "[]" |}.

Definition sample_registry : ToolRegistry string :=
  Registry.register (Registry.register Registry.empty_registry calculate_func)
    search_func.

Definition sample_sessions : SessionTable :=
  {| st_chat_sessions :=
       [ {| cs_id := 1; cs_session_id := "s";
            cs_system_prompt := Some "be brief" |} ];
     st_next_id := 2 |}.

End MoreWorld.

(** * Properties of the chain validator *)

Module ValidatorFacts.
Import Validator Shape.

Lemma role_is_true msg r : role_is msg r = true ↔ msg_role msg = Some r.
Proof. unfold role_is. by rewrite bool_decide_eq_true. Qed.

Lemma role_is_false msg r : role_is msg r = false ↔ msg_role msg ≠ Some r.
Proof. unfold role_is. by rewrite bool_decide_eq_false. Qed.

Lemma assistant_msg_with_calls a tool_calls :
  assistant_msg a = a → msg_tool_calls a = Some tool_calls →
  assistant_with_tool_calls a = true.
Proof.
  intros Ha Hc. unfold assistant_with_tool_calls.
  rewrite <- Ha at 1. rewrite Hc. apply andb_true_iff. split.
  - by apply role_is_true.
  - apply bool_decide_eq_true. by eexists.
Qed.

(** The matching rule reads only [tool_call_id] and [name]. *)
Lemma any_call_matches_ext tool_calls m m' :
  msg_tool_call_id m = msg_tool_call_id m' → msg_name m = msg_name m' →
  any_call_matches tool_calls m = any_call_matches tool_calls m'.
Proof.
  intros Hid Hname. unfold any_call_matches.
  induction tool_calls as [|tc tcs IH]; simpl; [done|].
  rewrite IH. unfold tool_call_matches. by rewrite Hid, Hname.
Qed.

Lemma tool_msg_of_tool_out tool_calls t :
  tool_out tool_calls t → tool_msg t = Some t.
Proof.
  intros (Hr & [c Hc] & Htc & _). destruct t; simpl in *; subst.
  reflexivity.
Qed.

Lemma tool_msg_tool_out tool_calls r t :
  any_call_matches tool_calls r = true → tool_msg r = Some t →
  tool_out tool_calls t.
Proof.
  unfold tool_msg. intros Hm Ht.
  destruct (msg_content r) as [c|] eqn:Hc; simplify_eq/=.
  repeat split; simpl; eauto.
Qed.

(** Everything the forward scan gathers is a tool message matching some
    entry. *)
Lemma collect_responses_Forall tool_calls following :
  Forall (λ r, role_is r "tool" = true ∧ any_call_matches tool_calls r = true)
         (collect_responses tool_calls following).
Proof.
  induction following as [|m rest IH]; simpl; [constructor|].
  destruct (role_is m "tool") eqn:Hr.
  - destruct (any_call_matches tool_calls m) eqn:Hm; [constructor|]; done.
  - destruct (role_is m "user" || role_is m "assistant"); [constructor|done].
Qed.

(** The forward scan gathers the responses in the order of the input. *)
Lemma collect_responses_sublist tool_calls following :
  sublist (collect_responses tool_calls following) following.
Proof.
  induction following as [|m rest IH]; simpl; [constructor|].
  destruct (role_is m "tool").
  - destruct (any_call_matches tool_calls m); by constructor.
  - destruct (role_is m "user" || role_is m "assistant").
    + apply sublist_nil_l.
    + by constructor.
Qed.

Lemma mapM_tool_msg_out tool_calls rs tms :
  Forall (λ r, role_is r "tool" = true ∧ any_call_matches tool_calls r = true) rs →
  mapM tool_msg rs = Some tms →
  Forall (tool_out tool_calls) tms ∧ length tms = length rs.
Proof.
  intros Hrs Hm. apply mapM_Some in Hm. split.
  - induction Hm as [|r t rs tms Hrt _ IH]; [constructor|].
    inversion Hrs as [|? ? [_ Hmatch] Hrs']; subst.
    constructor; [by eapply tool_msg_tool_out | by apply IH].
  - symmetry. by eapply Forall2_length.
Qed.

Lemma chain_pass_sanitized valid_messages :
  ∀ skip final, chain_pass skip valid_messages = Some final → sanitized final.
Proof.
  induction valid_messages as [|msg rest IH]; intros skip final; simpl.
  { intros [= <-]. constructor. }
  destruct skip as [|skip']; [|by apply IH].
  destruct (assistant_with_tool_calls msg) eqn:Ha.
  - case_bool_decide as Hlen; [|by apply IH].
    destruct (mapM tool_msg _) as [tms|] eqn:Htms; [|done]; simpl.
    destruct (chain_pass _ rest) as [tail|] eqn:Htail; [|done]; simpl.
    intros [= <-].
    apply andb_true_iff in Ha as [_ Hcalls].
    apply bool_decide_eq_true in Hcalls as [tool_calls Hcalls].
    rewrite Hcalls in *. simpl in *.
    destruct (mapM_tool_msg_out tool_calls _ _
                (collect_responses_Forall _ _) Htms) as [Hout Hl].
    eapply (sanitized_chain _ tool_calls); eauto.
    + simpl. congruence.
  - destruct (role_is msg "tool") eqn:Hr; [by apply IH|].
    unfold plain_msg.
    destruct (msg_role msg) as [r|] eqn:Hrole; [|done]; simpl.
    destruct (msg_content msg) as [c|]; [|done]; simpl.
    destruct (chain_pass 0 rest) as [tail|] eqn:Htail; [|done]; simpl.
    intros [= <-]. constructor; [|by eapply IH].
    apply role_is_false in Hr. congruence.
Qed.

(** *** Pass 1 leaves an emitted list alone *)

Lemma has_valid_assistant_intro earlier a tool_calls t :
  a ∈ earlier → assistant_with_tool_calls a = true →
  msg_tool_calls a = Some tool_calls → any_call_matches tool_calls t = true →
  has_valid_assistant earlier t = true.
Proof.
  intros Hin Ha Hc Hm. unfold has_valid_assistant.
  apply existsb_exists. exists a. split; [by apply list_elem_of_In|].
  rewrite Ha, Hc. done.
Qed.

Lemma orphan_pass_chain_tools a tool_calls ts rest :
  assistant_with_tool_calls a = true → msg_tool_calls a = Some tool_calls →
  Forall (tool_out tool_calls) ts →
  ∀ earlier, a ∈ earlier →
    orphan_pass earlier (ts ++ rest)
    = ts ++ orphan_pass (reverse ts ++ earlier) rest.
Proof.
  intros Ha Hc Hts. induction Hts as [|t ts Ht _ IH]; intros earlier Hin.
  { done. }
  simpl. destruct Ht as (_ & _ & _ & Hm).
  rewrite (has_valid_assistant_intro earlier a tool_calls t) by done.
  rewrite andb_false_r. rewrite IH by (by right).
  by rewrite reverse_cons, <- app_assoc.
Qed.

Lemma orphan_pass_sanitized l :
  sanitized l → ∀ earlier, orphan_pass earlier l = l.
Proof.
  induction 1 as [|r c rest Hr _ IH|a tool_calls ts rest Ha Hc Hts Hlen _ IH];
    intros earlier.
  - done.
  - simpl. replace (role_is (plain_message r c) "tool") with false.
    + simpl. by rewrite IH.
    + symmetry. apply role_is_false. simpl. congruence.
  - pose proof (assistant_msg_with_calls _ _ Ha Hc) as Hawc.
    simpl. replace (role_is a "tool") with false.
    + simpl. f_equal.
      rewrite (orphan_pass_chain_tools a tool_calls) by (done || by left).
      by rewrite IH.
    + symmetry. apply role_is_false. rewrite <- Ha. done.
Qed.

(** *** Pass 2 leaves an emitted list alone *)

Lemma collect_responses_sanitized tool_calls l :
  sanitized l → collect_responses tool_calls l = [].
Proof.
  induction 1 as [|r c rest Hr _ IH|a tcs ts rest Ha Hc Hts Hlen _ IH]; simpl.
  - done.
  - replace (role_is (plain_message r c) "tool") with false.
    + by destruct (_ || _).
    + symmetry. apply role_is_false. simpl. congruence.
  - replace (role_is a "tool") with false.
    + replace (role_is a "assistant") with true; [by rewrite orb_true_r|].
      symmetry. apply role_is_true. by rewrite <- Ha.
    + symmetry. apply role_is_false. by rewrite <- Ha.
Qed.

Lemma collect_responses_chain tool_calls ts rest :
  Forall (tool_out tool_calls) ts →
  collect_responses tool_calls (ts ++ rest)
  = ts ++ collect_responses tool_calls rest.
Proof.
  induction 1 as [|t ts (Hr & _ & _ & Hm) _ IH]; simpl; [done|].
  apply role_is_true in Hr. by rewrite Hr, Hm, IH.
Qed.

Lemma chain_pass_skip ts rest :
  chain_pass (length ts) (ts ++ rest) = chain_pass 0 rest.
Proof. induction ts as [|t ts IH]; [done|]. simpl. exact IH. Qed.

Lemma mapM_tool_msg_id tool_calls ts :
  Forall (tool_out tool_calls) ts → mapM tool_msg ts = Some ts.
Proof.
  intros Hts. apply mapM_Some.
  induction Hts as [|t ts Ht _ IH]; constructor; [|done].
  by eapply tool_msg_of_tool_out.
Qed.

Lemma chain_pass_fixes_sanitized l :
  sanitized l → chain_pass 0 l = Some l.
Proof.
  induction 1 as [|r c rest Hr Hrest IH|a tool_calls ts rest Ha Hc Hts Hlen Hrest IH].
  - done.
  - simpl.
    replace (role_is (plain_message r c) "tool") with false.
    + unfold assistant_with_tool_calls; simpl.
      rewrite andb_false_r. by rewrite IH.
    + symmetry. apply role_is_false. simpl. congruence.
  - simpl. rewrite (assistant_msg_with_calls _ _ Ha Hc), Hc. simpl.
    rewrite (collect_responses_chain _ _ _ Hts).
    rewrite (collect_responses_sanitized _ _ Hrest), app_nil_r.
    rewrite bool_decide_true by done.
    rewrite (mapM_tool_msg_id _ _ Hts). simpl.
    rewrite chain_pass_skip, IH. simpl. by rewrite Ha.
Qed.

(** *** Every emitted tool message has its assistant message before it *)

Lemma sanitized_tool_has_parent l :
  sanitized l →
  ∀ i t, l !! i = Some t → msg_role t = Some "tool" →
    ∃ j a tool_calls,
      j < i ∧ l !! j = Some a ∧ msg_role a = Some "assistant"
      ∧ msg_tool_calls a = Some tool_calls
      ∧ any_call_matches tool_calls t = true.
Proof.
  induction 1 as [|r c rest Hr _ IH|a tool_calls ts rest Ha Hc Hts Hlen _ IH];
    intros i t Hi Ht.
  - done.
  - destruct i as [|i]; simpl in Hi.
    + simplify_eq/=; congruence.
    + destruct (IH i t Hi Ht) as (j & p & tcs & Hj & Hp & Hrest).
      exists (S j), p, tcs. split; [lia | done].
  - destruct i as [|i]; simpl in Hi.
    + simplify_eq. rewrite <- Ha in Ht. simpl in Ht. congruence.
    + apply lookup_app_Some in Hi as [Hi|[Hge Hi]].
      * exists 0, a, tool_calls. split; [lia|]. split; [done|].
        split; [by rewrite <- Ha|]. split; [done|].
        apply (Forall_lookup_1 _ _ _ _ Hts) in Hi. apply Hi.
      * destruct (IH _ t Hi Ht) as (j & p & tcs & Hj & Hp & Hrest).
        exists (S (length ts + j)), p, tcs. split; [lia|]. split; [|done].
        simpl. rewrite lookup_app_r by lia.
        by replace (length ts + j - length ts) with j by lia.
Qed.

Lemma validate_sanitized history_messages final :
  validate history_messages = Some final → sanitized final.
Proof. apply chain_pass_sanitized. Qed.

End ValidatorFacts.

(** * Claims about the chain validator *)

Module ValidatorClaims.
Import Validator Shape ValidatorFacts Samples Histories.

(** C10 — the chain validator is idempotent: whenever the two passes return
    a list for some history, running the two passes on that list returns it
    unchanged. *)
Theorem validate_idempotent history_messages final :
  validate history_messages = Some final → validate final = Some final.
Proof.
  intros Hfinal. apply validate_sanitized in Hfinal.
  unfold validate. rewrite orphan_pass_sanitized by done.
  by apply chain_pass_fixes_sanitized.
Qed.

Lemma validate_idempotent_witness :
  validate mixed_history = Some mixed_final
  ∧ validate mixed_final = Some mixed_final.
Proof.
  split; [vm_compute; reflexivity|].
  apply (validate_idempotent mixed_history). vm_compute; reflexivity.
Defined.







(** C1 — the validator on two histories that break the stated invariant.
    In [doubled_history] the entry [call_b] has no response, yet the count of
    gathered responses equals the count of entries and the whole group is
    emitted.  In [interleaved_history] the chain is complete and the system
    message inside it is stepped over by [i += len(tool_responses)]. *)
Theorem validate_keeps_unanswered_entry :
  validate doubled_history = Some doubled_history
  ∧ existsb (tool_call_matches (call "call_b" "g")) doubled_history = false
  ∧ validate interleaved_history
    = Some [ assistant_calls [call "call_a" "f"];
             tool_result "call_a" "f" "ra"; user "next" ].
Proof. vm_compute. done. Qed.

End ValidatorClaims.

(** * Properties of the history window *)

Module HistoryFacts.
Import History.

(** The query returns the rows newest first. *)
#[local] Instance newest_first_trans : Transitive newest_first.
Proof. unfold newest_first. intros a b c Hab Hbc. lia. Qed.

#[local] Instance newest_first_total : Total newest_first.
Proof. unfold newest_first. intros a b. lia. Qed.

Lemma session_messages_desc_sorted chat_messages session_id :
  StronglySorted newest_first (session_messages_desc chat_messages session_id).
Proof. apply StronglySorted_merge_sort; apply _. Qed.

(** Only rows of the session are read. *)
Lemma session_messages_desc_session chat_messages session_id row :
  row ∈ session_messages_desc chat_messages session_id →
  cm_session_id row = session_id ∧ row ∈ chat_messages.
Proof.
  unfold session_messages_desc. rewrite merge_sort_Permutation.
  by intros [? ?]%list_elem_of_filter.
Qed.

Section Window.
Context (json_loads : string → option Json) (max_history_messages : nat).

#[local] Abbreviation in_chain := (in_chain json_loads).
#[local] Abbreviation expand := (expand json_loads).
#[local] Abbreviation window_desc := (window_desc json_loads max_history_messages).
#[local] Abbreviation window_rows := (window_rows json_loads max_history_messages).
#[local] Abbreviation get_history := (get_history json_loads max_history_messages).

(** What the test of the expansion loop means. *)
Lemma in_chain_iff row :
  in_chain row = true ↔ inside_chain json_loads row.
Proof.
  unfold History.in_chain, History.inside_chain, role_is.
  destruct (json_loads (cm_content row)) as [[d|]|]; split;
    try (intros; discriminate); try (by intros (? & [=] & _)).
  - intros H. exists d. split; [done|].
    apply orb_true_iff in H as [H|H].
    + left. by apply bool_decide_eq_true in H.
    + right. apply andb_true_iff in H as [H1 H2].
      split; by eapply bool_decide_eq_true.
  - intros (d' & [= <-] & [H|[H1 H2]]).
    + apply orb_true_iff. left. by apply bool_decide_eq_true.
    + apply orb_true_iff. right. apply andb_true_iff.
      split; by apply bool_decide_eq_true.
Qed.

(** The loop appends a prefix of the older rows: it goes on exactly while
    the row that is then the oldest is inside a chain. *)
Lemma expand_spec older :
  ∀ oldest, ∃ n,
    expand oldest older = take n older
    ∧ n ≤ length older
    ∧ (∀ j row, j < n → (oldest :: older) !! j = Some row → in_chain row = true)
    ∧ (n = length older
       ∨ ∃ row, (oldest :: older) !! n = Some row ∧ in_chain row = false).
Proof.
  induction older as [|next older' IH]; intros oldest.
  { exists 0. simpl. repeat split; [lia | intros; lia | by left]. }
  simpl. destruct (in_chain oldest) eqn:Hc.
  - destruct (IH next) as (n & Hn & Hle & Hall & Hstop).
    exists (S n). simpl. rewrite Hn. repeat split; [lia | |].
    + intros [|j] row Hj Hrow; simpl in Hrow.
      * congruence.
      * apply (Hall j); [lia | done].
    + destruct Hstop as [->|Hstop]; [by left | by right].
  - exists 0. repeat split; [simpl; lia | intros; lia |].
    right. by exists oldest.
Qed.

Lemma window_desc_spec recent :
  0 < max_history_messages → recent ≠ [] →
  ∃ k,
    window_desc recent = take k recent
    ∧ max_history_messages `min` length recent ≤ k ≤ length recent
    ∧ (∀ j row, max_history_messages `min` length recent - 1 ≤ j → j + 1 < k →
                recent !! j = Some row → in_chain row = true)
    ∧ (k = length recent
       ∨ ∃ row, recent !! (k - 1) = Some row ∧ in_chain row = false).
Proof.
  intros HN Hne.
  assert (0 < length recent) as Hlen by (destruct recent; [done | simpl; lia]).
  set (N' := max_history_messages `min` length recent).
  assert (0 < N' ≤ length recent) as HN' by (unfold N'; lia).
  unfold History.window_desc.
  assert ((if bool_decide (max_history_messages < length recent)
           then take max_history_messages recent else recent)
          = take N' recent) as ->.
  { case_bool_decide.
    - unfold N'. by rewrite Nat.min_l by lia.
    - unfold N'. rewrite Nat.min_r by lia. by rewrite firstn_all. }
  rewrite last_lookup, length_take. fold N'.
  replace (N' `min` length recent) with N' by lia.
  rewrite lookup_take_lt by lia.
  destruct (lookup_lt_is_Some_2 recent (Nat.pred N')) as [oldest Ho]; [lia|].
  rewrite Ho.
  destruct (expand_spec (drop N' recent) oldest) as (n & Hn & Hle & Hall & Hstop).
  rewrite length_drop in Hle.
  assert (∀ j, (oldest :: drop N' recent) !! j = recent !! (N' - 1 + j)) as Hidx.
  { intros j. rewrite <- lookup_drop. f_equal.
    replace (N' - 1) with (Nat.pred N') by lia.
    rewrite (drop_S _ _ _ Ho). f_equal. f_equal. lia. }
  exists (N' + n). rewrite Hn, take_take_drop.
  repeat split; [lia | lia | |].
  - intros j row Hj1 Hj2 Hrow.
    apply (Hall (j - (N' - 1))); [lia|].
    rewrite Hidx. by replace (N' - 1 + (j - (N' - 1))) with j by lia.
  - destruct Hstop as [->|(row & Hrow & Hc)].
    + left. rewrite length_drop. lia.
    + right. exists row. split; [|done].
      rewrite Hidx in Hrow. by replace (N' + n - 1) with (N' - 1 + n) by lia.
Qed.

(** The rows of the window as a prefix of the fetched buffer. *)
Lemma window_rows_spec chat_messages session_id :
  session_id ≠ "" →
  let recent :=
    select_recent chat_messages session_id (max_history_messages * 2) in
  ∃ k,
    window_rows chat_messages session_id = take k recent
    ∧ max_history_messages `min` length recent ≤ k ≤ length recent
    ∧ (∀ j row, max_history_messages `min` length recent - 1 ≤ j → j + 1 < k →
                recent !! j = Some row → in_chain row = true)
    ∧ (k = length recent
       ∨ ∃ row, recent !! (k - 1) = Some row ∧ in_chain row = false).
Proof.
  intros Hs recent. unfold History.window_rows.
  rewrite bool_decide_false by done. fold recent.
  destruct (decide (recent = [])) as [Hnil|Hne].
  { rewrite Hnil. exists 0. simpl.
    repeat split; [lia | lia | intros ? ? _ _ [=] | by left]. }
  destruct (decide (max_history_messages = 0)) as [HN|HN].
  { exfalso. apply Hne. unfold recent, select_recent. by rewrite HN. }
  destruct (window_desc_spec recent) as (k & Hk); [lia | done |].
  exists k. destruct recent; [done | exact Hk].
Qed.

Lemma window_rows_empty_session chat_messages :
  window_rows chat_messages "" = [].
Proof. reflexivity. Qed.

Lemma in_chain_false_iff row :
  in_chain row = false ↔ ¬ inside_chain json_loads row.
Proof. rewrite <- in_chain_iff. by destruct (in_chain row). Qed.

Lemma get_history_length chat_messages session_id :
  length (get_history chat_messages session_id)
  = length (window_rows chat_messages session_id).
Proof.
  unfold History.get_history. by rewrite length_fmap, length_reverse.
Qed.

Lemma select_recent_length chat_messages session_id limit :
  length (select_recent chat_messages session_id limit) ≤ limit.
Proof. unfold select_recent. rewrite length_take. lia. Qed.

End Window.
End HistoryFacts.

(** * Claims about the history window *)

Module HistoryClaims.
Import History HistoryFacts Samples World.

(** C3, as the spec states it, fails: with a window of one message, the
    session of [empty_calls_table] holds a user message and an assistant
    message whose [tool_calls] list is empty, so no tool message and no
    requested call, hence no chain to keep whole; the window still has two
    entries. *)
Lemma window_exceeds_bound_without_chain :
  message_dict sample_loads <$> empty_calls_table
    = [JDict (user "old"); JDict assistant_no_calls]
  ∧ Forall (λ d, msg_role d ≠ Some "tool"
                 ∧ default [] (msg_tool_calls d) = [])
           [user "old"; assistant_no_calls]
  ∧ get_history sample_loads 1 empty_calls_table "s"
    = [JDict (user "old"); JDict assistant_no_calls]
  ∧ ¬ length (get_history sample_loads 1 empty_calls_table "s") ≤ 1.
Proof.
  split; [by vm_compute|]. split; [by repeat constructor|].
  split; [by vm_compute|]. vm_compute. lia.
Qed.

(** C3, amended — the window returned by [get_history] never has more than
    [2 * max_history_messages] entries; it is built from the newest rows of
    the session, a prefix of its rows sorted newest first, so whatever
    expansion adds is older than the candidate window; and it has at most
    [max_history_messages] entries unless the oldest row of the candidate
    window, the row at position [max_history_messages - 1], parses to a tool
    message or to an assistant message that has a [tool_calls] key, whatever
    the list under it holds. *)
Theorem get_history_window_bound (json_loads : string → option Json)
    (max_history_messages : nat) (chat_messages : list ChatMessage)
    (session_id : string) :
  let window := get_history json_loads max_history_messages chat_messages session_id in
  let all_desc := session_messages_desc chat_messages session_id in
  length window ≤ 2 * max_history_messages
  ∧ StronglySorted newest_first all_desc
  ∧ (∃ k, window = message_dict json_loads <$> reverse (take k all_desc))
  ∧ (length window ≤ max_history_messages
     ∨ ∃ oldest d,
         all_desc !! (max_history_messages - 1) = Some oldest
         ∧ json_loads (cm_content oldest) = Some (JDict d)
         ∧ (msg_role d = Some "tool"
            ∨ (msg_role d = Some "assistant"
               ∧ is_Some (msg_tool_calls d)))).
Proof.
  intros window all_desc. unfold window, get_history.
  rewrite length_fmap, length_reverse.
  destruct (decide (session_id = "")) as [->|Hs].
  { rewrite window_rows_empty_session. simpl.
    split; [lia|]. split; [apply session_messages_desc_sorted|].
    split; [by exists 0 | left; lia]. }
  destruct (window_rows_spec json_loads max_history_messages
              chat_messages session_id Hs) as (k & -> & Hk & Hall & _).
  pose proof (select_recent_length chat_messages session_id
                (max_history_messages * 2)) as Hlen.
  set (recent := select_recent chat_messages session_id
                   (max_history_messages * 2)) in *.
  rewrite length_take. split; [|split; [|split]].
  - lia.
  - apply session_messages_desc_sorted.
  - exists (k `min` (max_history_messages * 2)).
    unfold recent, select_recent. fold all_desc. by rewrite take_take.
  - destruct (decide (k ≤ max_history_messages)) as [|Hgt]; [left; lia|].
    right.
    destruct (lookup_lt_is_Some_2 recent (max_history_messages - 1))
      as [oldest Ho]; [lia|].
    assert (inside_chain json_loads oldest) as (d & Hd & Hrole).
    { apply in_chain_iff.
      apply (Hall (max_history_messages - 1)); [lia | lia | done]. }
    exists oldest, d. split; [|done].
    rewrite <- Ho. unfold recent, select_recent. fold all_desc.
    symmetry. apply lookup_take_lt. lia.
Qed.

(** C4, as the spec states it, fails: with a window of one message, the
    newest row of [empty_calls_table] is an assistant message whose
    [tool_calls] list is empty, and the window still grows by the older
    row. *)
Lemma window_grows_past_empty_tool_calls :
  select_recent empty_calls_table "s" 2
    = [row 2 "s" assistant_no_calls; row 1 "s" (user "old")]
  ∧ sample_loads (cm_content (row 2 "s" assistant_no_calls))
    = Some (JDict assistant_no_calls)
  ∧ msg_role assistant_no_calls = Some "assistant"
  ∧ msg_tool_calls assistant_no_calls = Some []
  ∧ get_history sample_loads 1 empty_calls_table "s"
    = [JDict (user "old"); JDict assistant_no_calls].
Proof. vm_compute. done. Qed.

(** C4, amended — for a session with a name, the window is the newest
    [max_history_messages] rows of the fetched buffer, grown one older row
    at a time exactly while the oldest row of the window parses to a tool
    message or to an assistant message that has a [tool_calls] key, empty or
    not; it stops at the first oldest row that is anything else (or does not
    parse), or when the buffer is exhausted, and then returns what it has. *)
Theorem window_expansion_rule (json_loads : string → option Json)
    (max_history_messages : nat) (chat_messages : list ChatMessage)
    (session_id : string) :
  session_id ≠ "" →
  let recent :=
    select_recent chat_messages session_id (max_history_messages * 2) in
  ∃ k,
    window_rows json_loads max_history_messages chat_messages session_id
      = take k recent
    ∧ max_history_messages `min` length recent ≤ k ≤ length recent
    ∧ (∀ j row, max_history_messages `min` length recent - 1 ≤ j → j + 1 < k →
                recent !! j = Some row → inside_chain json_loads row)
    ∧ (k = length recent
       ∨ ∃ row, recent !! (k - 1) = Some row ∧ ¬ inside_chain json_loads row).
Proof.
  intros Hs recent. subst recent.
  destruct (window_rows_spec json_loads max_history_messages
              chat_messages session_id Hs) as (k & Hw & Hk & Hall & Hstop).
  exists k. split; [done|]. split; [lia|]. split.
  - intros j r Hj1 Hj2 Hr. apply in_chain_iff. by apply (Hall j).
  - destruct Hstop as [->|(r & Hr & Hc)]; [by left|].
    right. exists r. split; [done|]. by apply in_chain_false_iff.
Qed.

Lemma window_expansion_rule_witness :
  let recent := select_recent straddling_table "s" (2 * 2) in
  ∃ k,
    window_rows sample_loads 2 straddling_table "s" = take k recent
    ∧ 2 `min` length recent ≤ k ≤ length recent
    ∧ (∀ j row, 2 `min` length recent - 1 ≤ j → j + 1 < k →
                recent !! j = Some row → inside_chain sample_loads row)
    ∧ (k = length recent
       ∨ ∃ row, recent !! (k - 1) = Some row ∧ ¬ inside_chain sample_loads row).
Proof.
  apply (window_expansion_rule sample_loads 2 straddling_table "s").
  done.
Defined.

(** C9, as the spec states it, fails: the second row of [broken_table] does
    not parse, and the window still has an entry for it. *)
Lemma unparsable_message_is_kept :
  sample_loads (cm_content (broken_row 2 "s")) = None
  ∧ get_history sample_loads 10 broken_table "s"
    = [ JDict (user "q"); JDict (plain_message "user" "not json");
        JDict (assistant "a") ].
Proof. vm_compute. done. Qed.

(** C9, amended — when the stored content of a row of the window fails to
    parse, [get_history] goes on and puts, at the place of that row, the
    message whose role is the row's [role] column and whose content is the
    raw stored text; the window has one entry per row. *)
Theorem unparsable_message_replaced (json_loads : string → option Json)
    (max_history_messages : nat) (chat_messages : list ChatMessage)
    (session_id : string) (i : nat) (row : ChatMessage) :
  reverse (window_rows json_loads max_history_messages chat_messages session_id)
    !! i = Some row →
  json_loads (cm_content row) = None →
  get_history json_loads max_history_messages chat_messages session_id !! i
    = Some (JDict (plain_message (cm_role row) (cm_content row)))
  ∧ length (get_history json_loads max_history_messages chat_messages session_id)
    = length (window_rows json_loads max_history_messages chat_messages session_id).
Proof.
  intros Hrow Hparse. split; [|apply get_history_length].
  unfold get_history. rewrite list_lookup_fmap, Hrow. simpl.
  unfold message_dict. by rewrite Hparse.
Qed.

Lemma unparsable_message_replaced_witness :
  get_history sample_loads 10 broken_table "s" !! 1
    = Some (JDict (plain_message (cm_role (broken_row 2 "s"))
                                 (cm_content (broken_row 2 "s"))))
  ∧ length (get_history sample_loads 10 broken_table "s")
    = length (window_rows sample_loads 10 broken_table "s").
Proof.
  apply (unparsable_message_replaced sample_loads 10 broken_table "s" 1
           (broken_row 2 "s")).
  - vm_compute. reflexivity.
  - vm_compute. reflexivity.
Defined.

End HistoryClaims.

(** * Properties of the tool dispatch *)

Module DispatchFacts.
Import Dispatch.

Section Slots.
Context {A : Type}.
Implicit Types (results : list A) (slots : list (option A)).

Lemma complete_length results slots i :
  length (complete results slots i) = length slots.
Proof.
  unfold complete. destruct (results !! i); [apply length_insert | done].
Qed.

Lemma foldl_complete_length results completion :
  ∀ slots, length (foldl (complete results) slots completion) = length slots.
Proof.
  induction completion as [|c cs IH]; intros slots; simpl; [done|].
  by rewrite IH, complete_length.
Qed.

(** After the tasks of [completion] have finished, the slot of a task holds
    its result when the task is among them, and is untouched otherwise. *)
Lemma foldl_complete_lookup results completion :
  ∀ slots i, length slots = length results →
    foldl (complete results) slots completion !! i
    = match results !! i with
      | Some r => if decide (i ∈ completion) then Some (Some r) else slots !! i
      | None => None
      end.
Proof.
  induction completion as [|c cs IH]; intros slots i Hlen; cbn [foldl].
  - destruct (results !! i) eqn:Hr.
    + rewrite decide_False; [done | apply not_elem_of_nil].
    + apply lookup_ge_None. apply lookup_ge_None in Hr. lia.
  - rewrite IH by (by rewrite complete_length).
    destruct (results !! i) as [r|] eqn:Hr; [|done].
    destruct (decide (i ∈ cs)) as [Hin|Hnin].
    { rewrite decide_True; [done | by right]. }
    unfold complete. destruct (decide (i = c)) as [->|Hne].
    + rewrite Hr, decide_True by left.
      apply list_lookup_insert_eq. apply lookup_lt_Some in Hr. lia.
    + rewrite decide_False by (intros [?|?]%elem_of_cons; done).
      destruct (results !! c); [by apply list_lookup_insert_ne | done].
Qed.

(** Once every task has finished, in whatever order, [gather] returns the
    results in the order of the tasks. *)
Lemma gather_all_complete completion results :
  (∀ i, i < length results → i ∈ completion) →
  gather completion results = Some results.
Proof.
  intros Hall. unfold gather. apply mapM_Some.
  apply Forall2_same_length_lookup. split.
  - by rewrite foldl_complete_length, length_replicate.
  - intros i slot r Hslot Hr.
    rewrite foldl_complete_lookup in Hslot by apply length_replicate.
    rewrite Hr in Hslot.
    rewrite decide_True in Hslot
      by (apply Hall; by apply lookup_lt_Some in Hr).
    by simplify_eq.
Qed.

Lemma gather_permutation completion results :
  completion ≡ₚ seq 0 (length results) →
  gather completion results = Some results.
Proof.
  intros Hperm. apply gather_all_complete. intros i Hi.
  rewrite Hperm. apply elem_of_seq. lia.
Qed.

(** A task that never finishes leaves [gather] without a result. *)
Lemma gather_incomplete completion results i :
  i < length results → i ∉ completion → gather completion results = None.
Proof.
  intros Hi Hnot. unfold gather.
  destruct (mapM id _) as [rs|] eqn:Hm; [|done]. exfalso.
  apply mapM_Some in Hm.
  destruct (lookup_lt_is_Some_2 results i Hi) as [r Hr].
  pose proof (foldl_complete_lookup results completion
                (replicate (length results) None) i
                (length_replicate _ _)) as Hlook.
  rewrite Hr, decide_False in Hlook by done.
  rewrite lookup_replicate_2 in Hlook by done.
  destruct (Forall2_lookup_l _ _ _ _ _ Hm Hlook) as (y & _ & Hy).
  discriminate.
Qed.

End Slots.
End DispatchFacts.

(** * Claims about the tool dispatch *)

Module DispatchClaims.
Import Dispatch DispatchFacts World.

(** C2 — for every ordered list of tool calls and every order in which the
    invocations complete, the dispatch returns one result per call, in the
    order of the calls: the result at position [i] is the one of the call at
    position [i], whether that call succeeded or failed. *)
Theorem dispatch_in_request_order {Args : Type} (empty_args : Args)
    (json_loads_args : string → string + Args)
    (get_tool : string → option (Args → Outcome))
    (completion : list nat) (tool_calls : list ModelToolCall) :
  completion ≡ₚ seq 0 (length tool_calls) →
  ∃ results,
    dispatch empty_args json_loads_args get_tool completion tool_calls
      = Some results
    ∧ length results = length tool_calls
    ∧ ∀ i tool_call, tool_calls !! i = Some tool_call →
        results !! i
        = Some (execute_tool empty_args json_loads_args get_tool tool_call).
Proof.
  intros Hperm.
  exists (execute_tool empty_args json_loads_args get_tool <$> tool_calls).
  split; [|split].
  - unfold dispatch. apply gather_permutation. by rewrite length_fmap.
  - apply length_fmap.
  - intros i tool_call Hi. by rewrite list_lookup_fmap, Hi.
Qed.

Lemma dispatch_in_request_order_witness :
  ∃ results,
    dispatch "{}" sample_loads_args sample_tools [2; 0; 1] sample_calls
      = Some results
    ∧ length results = length sample_calls
    ∧ ∀ i tool_call, sample_calls !! i = Some tool_call →
        results !! i
        = Some (execute_tool "{}" sample_loads_args sample_tools tool_call).
Proof.
  apply (dispatch_in_request_order "{}" sample_loads_args sample_tools
           [2; 0; 1] sample_calls).
  vm_compute. solve_Permutation.
Defined.

(** C5 — [execute_tool] is total: for every tool call it returns a message
    with role ["tool"], the [tool_call_id] of the request, the requested
    tool name, and a content that is the stringified return value of the
    tool, or an error text when the name is not registered or when parsing
    the arguments or running the tool raises.  In a batch, the result at the
    position of a call is this message whatever the other calls do. *)
Theorem execute_tool_always_answers {Args : Type} (empty_args : Args)
    (json_loads_args : string → string + Args)
    (get_tool : string → option (Args → Outcome))
    (tool_call : ModelToolCall) :
  let tool_name := mf_name (mtc_function tool_call) in
  let msg := execute_tool empty_args json_loads_args get_tool tool_call in
  msg_role msg = Some "tool"
  ∧ msg_tool_call_id msg = Some (mtc_id tool_call)
  ∧ msg_name msg = Some tool_name
  ∧ msg_content msg
    = Some
        match get_tool tool_name with
        | None => "错误: 找不到名为 '" +:+ tool_name +:+ "' 的工具。"
        | Some tool_to_call =>
            match parse_arguments empty_args json_loads_args
                    (mf_arguments (mtc_function tool_call)) with
            | inl e => "执行失败: " +:+ e
            | inr tool_args =>
                match tool_to_call tool_args with
                | Returned str_result => str_result
                | Raised e => "执行失败: " +:+ e
                end
            end
        end
  ∧ ∀ completion before after,
      completion ≡ₚ seq 0 (length (before ++ tool_call :: after)) →
      ∃ results,
        dispatch empty_args json_loads_args get_tool completion
          (before ++ tool_call :: after) = Some results
        ∧ results !! length before = Some msg.
Proof.
  intros tool_name msg. unfold msg, execute_tool. fold tool_name.
  repeat split.
  - destruct (get_tool tool_name); [|done].
    destruct (parse_arguments _ _ _); [done|]. by destruct (o _).
  - destruct (get_tool tool_name); [|done].
    destruct (parse_arguments _ _ _); [done|]. by destruct (o _).
  - destruct (get_tool tool_name); [|done].
    destruct (parse_arguments _ _ _); [done|]. by destruct (o _).
  - destruct (get_tool tool_name); [|done].
    destruct (parse_arguments _ _ _); [done|]. by destruct (o _).
  - intros completion before after Hperm.
    eexists. split.
    + unfold dispatch. apply gather_permutation. by rewrite length_fmap.
    + rewrite list_lookup_fmap, list_lookup_middle by done. done.
Qed.

Lemma execute_tool_always_answers_witness :
  msg_content (execute_tool "{}" sample_loads_args sample_tools
                 (model_call "call_2" "calculate" two_plus_two))
    = Some "4"
  ∧ ∃ results,
      dispatch "{}" sample_loads_args sample_tools [2; 0; 1] sample_calls
        = Some results
      ∧ results !! 1
        = Some (execute_tool "{}" sample_loads_args sample_tools
                  (model_call "call_2" "calculate" two_plus_two)).
Proof.
  pose proof (execute_tool_always_answers "{}" sample_loads_args sample_tools
                (model_call "call_2" "calculate" two_plus_two))
    as (_ & _ & _ & Hcontent & Hbatch).
  split; [exact Hcontent|].
  apply (Hbatch [2; 0; 1] [model_call "call_1" "unknown_tool" ""]
           [model_call "call_3" "calculate" "{oops"]).
  vm_compute. solve_Permutation.
Defined.

End DispatchClaims.

(** * Claims about one turn *)

Module TurnClaims.
Import Turn World.

Section OneTurn.
Context {Args : Type}.
Context (empty_args : Args)
        (json_loads_args : string → string + Args)
        (get_tool : string → option (Args → Outcome))
        (json_loads : string → option Json)
        (json_dumps : Message → string)
        (commit_ok : Database → list ChatMessage → bool)
        (max_history_messages : nat)
        (client_configured : bool)
        (decision_api : list Message → string + ModelMessage)
        (summary_api : list Message → string + string).

#[local] Abbreviation decide_turn :=
  (get_model_decision client_configured decision_api).
#[local] Abbreviation summarize :=
  (get_summary_from_tool_results client_configured summary_api).
#[local] Abbreviation context_of request db :=
  (format_messages_with_memory json_loads max_history_messages
     (req_query request) (req_session_id request)
     (req_system_prompt request) db).
#[local] Abbreviation results_of :=
  (tool_results empty_args json_loads_args get_tool).
#[local] Abbreviation summary_context model_decision request db :=
  (messages_for_summary empty_args json_loads_args get_tool model_decision
     (context_of request db) (plain_message "user" (req_query request))).
#[local] Abbreviation turn :=
  (llm_with_tools empty_args json_loads_args get_tool json_loads json_dumps
     commit_ok max_history_messages client_configured decision_api
     summary_api).

#[local] Abbreviation tool_batch :=
  (Turn.tool_batch empty_args json_loads_args get_tool).



(** C7 — when the decision call raises, the turn ends with one error and
    the database is the one the turn started with: no message of the turn
    is stored. *)
Theorem failed_decision_persists_nothing (request : LLMWithToolsRequest)
    (db : Database) (now : Z) (e : string) :
  decide_turn (context_of request db) = inl e →
  turn request db now = (inl (internal_error e), db).
Proof. intros Hfail. unfold llm_with_tools. by rewrite Hfail. Qed.


End OneTurn.

Lemma failed_decision_persists_nothing_witness :
  llm_with_tools "{}" sample_loads_args sample_tools sample_loads sample_dumps
    accept_all 2 true failing_decision failing_summary (sample_request "s")
    stored_db 1700000100
  = (inl (internal_error "Connection error."), stored_db).
Proof.
  apply (failed_decision_persists_nothing "{}" sample_loads_args sample_tools
           sample_loads sample_dumps accept_all 2 true failing_decision
           failing_summary (sample_request "s") stored_db 1700000100
           "Connection error.").
  reflexivity.
Defined.



End TurnClaims.

(** * Further properties of the chain validator *)

Module ValidatorExtras.
Import Validator Shape ValidatorFacts Dialogue Samples Histories.

#[local] Arguments dialogue : simpl never.

Lemma spoken_tool msg : msg_role msg = Some "tool" → spoken msg = None.
Proof.
  intros Hr. unfold spoken, role_is. rewrite Hr.
  rewrite !bool_decide_false by discriminate. done.
Qed.

Lemma spoken_with_calls msg :
  assistant_with_tool_calls msg = true → spoken msg = None.
Proof.
  unfold assistant_with_tool_calls, spoken.
  intros [Hr Hc]%andb_true_iff. rewrite Hc, Hr, andb_false_r, orb_false_r.
  apply role_is_true in Hr. unfold role_is. rewrite Hr.
  by rewrite bool_decide_false by discriminate.
Qed.

Lemma dialogue_app l1 l2 : dialogue (l1 ++ l2) = dialogue l1 ++ dialogue l2.
Proof. apply omap_app. Qed.

Lemma dialogue_cons m l : dialogue (m :: l) = dialogue [m] ++ dialogue l.
Proof. apply (dialogue_app [m] l). Qed.

Lemma dialogue_cons_none m l : spoken m = None → dialogue (m :: l) = dialogue l.
Proof.
  intros Hm. rewrite dialogue_cons. unfold dialogue at 1. simpl.
  by rewrite Hm.
Qed.

Lemma dialogue_cons_eq m m' l l' :
  spoken m = spoken m' → dialogue l = dialogue l' →
  dialogue (m :: l) = dialogue (m' :: l').
Proof.
  intros Hm Hl. rewrite (dialogue_cons m), (dialogue_cons m'), Hl.
  f_equal. unfold dialogue. simpl. by rewrite Hm.
Qed.

Lemma dialogue_tools ts :
  Forall (λ t, msg_role t = Some "tool") ts → dialogue ts = [].
Proof.
  induction 1 as [|t ts Ht _ IH]; [done|].
  by rewrite dialogue_cons_none by (by apply spoken_tool).
Qed.

Lemma orphan_pass_dialogue history_messages :
  ∀ earlier, dialogue (orphan_pass earlier history_messages)
             = dialogue history_messages.
Proof.
  induction history_messages as [|msg rest IH]; intros earlier; [done|].
  simpl. destruct (role_is msg "tool" && _) eqn:Hdrop.
  - apply andb_true_iff in Hdrop as [Hr%role_is_true _].
    by rewrite IH, dialogue_cons_none by (by apply spoken_tool).
  - by apply dialogue_cons_eq.
Qed.

Lemma collect_responses_until_turn tool_calls following :
  length (collect_responses tool_calls following) ≤ until_turn following.
Proof.
  induction following as [|m rest IH]; simpl; [done|].
  destruct (role_is m "tool") eqn:Hr.
  - apply role_is_true in Hr. unfold role_is. rewrite Hr.
    rewrite !bool_decide_false by discriminate. simpl.
    destruct (any_call_matches tool_calls m); simpl; lia.
  - destruct (role_is m "user" || role_is m "assistant"); simpl; lia.
Qed.

Lemma leading_tools_until_turn following :
  leading_tools following ≤ until_turn following.
Proof.
  induction following as [|m rest IH]; simpl; [done|].
  destruct (role_is m "tool") eqn:Hr; [|lia].
  apply role_is_true in Hr. unfold role_is. rewrite Hr.
  rewrite !bool_decide_false by discriminate. simpl. lia.
Qed.

Lemma spoken_plain msg r c :
  assistant_with_tool_calls msg = false →
  msg_role msg = Some r → msg_content msg = Some c →
  spoken (plain_message r c) = spoken msg.
Proof.
  unfold assistant_with_tool_calls, spoken, role_is. intros Ha Hr Hc.
  rewrite Hr, Hc in *.
  cbn [plain_message msg_role msg_content msg_tool_calls].
  destruct (bool_decide (Some r = Some "user")); [done|].
  destruct (bool_decide (Some r = Some "assistant")); [|done].
  simpl in Ha. rewrite Ha. done.
Qed.

(** The positions the second pass steps over never hold a user or an
    assistant message, so the dialogue goes through untouched. *)
Lemma chain_pass_dialogue valid_messages :
  ∀ skip final, skip ≤ until_turn valid_messages →
    chain_pass skip valid_messages = Some final →
    dialogue final = dialogue valid_messages.
Proof.
  induction valid_messages as [|msg rest IH]; intros skip final Hskip; simpl.
  { by intros [= <-]. }
  destruct skip as [|skip'].
  - destruct (assistant_with_tool_calls msg) eqn:Ha.
    + rewrite (dialogue_cons_none msg) by (by apply spoken_with_calls).
      case_bool_decide as Hlen.
      * destruct (mapM tool_msg _) as [tms|] eqn:Htms; [|done]; simpl.
        destruct (chain_pass _ rest) as [tail|] eqn:Htail; [|done]; simpl.
        intros [= <-].
        apply (IH _ _ (collect_responses_until_turn _ _)) in Htail.
        destruct (mapM_tool_msg_out _ _ _
                    (collect_responses_Forall _ _) Htms) as [Hout _].
        rewrite dialogue_cons_none, dialogue_app, Htail.
        -- rewrite (dialogue_tools tms); [done|].
           eapply Forall_impl; [exact Hout|]. by intros t (? & _).
        -- apply spoken_with_calls.
           unfold assistant_with_tool_calls in *. simpl.
           apply andb_true_iff in Ha as [_ ->]. done.
      * intros Htail.
        by apply (IH _ _ (leading_tools_until_turn _)) in Htail.
    + destruct (role_is msg "tool") eqn:Hr.
      * intros Htail. apply (IH 0) in Htail; [|lia].
        apply role_is_true in Hr.
        by rewrite dialogue_cons_none by (by apply spoken_tool).
      * unfold plain_msg.
        destruct (msg_role msg) as [r|] eqn:Hrole; [|done]; simpl.
        destruct (msg_content msg) as [c|] eqn:Hc; [|done]; simpl.
        destruct (chain_pass 0 rest) as [tail|] eqn:Htail; [|done]; simpl.
        intros [= <-]. apply (IH 0) in Htail; [|lia].
        apply dialogue_cons_eq; [by apply spoken_plain | done].
  - simpl in Hskip.
    destruct (role_is msg "user" || role_is msg "assistant") eqn:Hturn;
      [lia|].
    intros Htail. apply IH in Htail; [|lia].
    rewrite dialogue_cons_none; [done|].
    unfold spoken. apply orb_false_iff in Hturn as [-> ->]. done.
Qed.

(** X1 — The dialogue of a history survives the validator: every user message
    and every assistant message without [tool_calls] is emitted, with its
    content, in the original order, and no other such message appears. *)
Theorem validate_keeps_dialogue history_messages final :
  validate history_messages = Some final →
  dialogue final = dialogue history_messages.
Proof.
  intros Hfinal. unfold validate in Hfinal.
  apply chain_pass_dialogue in Hfinal; [|lia].
  by rewrite Hfinal, orphan_pass_dialogue.
Qed.

Lemma validate_keeps_dialogue_witness :
  dialogue mixed_final = dialogue mixed_history.
Proof.
  apply (validate_keeps_dialogue mixed_history mixed_final).
  vm_compute. reflexivity.
Defined.

Lemma validate_of_sanitized (messages : list Message) :
  sanitized messages → validate messages = Some messages.
Proof.
  intros Hs. unfold validate. rewrite orphan_pass_sanitized by done.
  by apply chain_pass_fixes_sanitized.
Qed.

(** X2 — The lists the validator leaves unchanged are exactly the sequences of
    plain messages and complete chains. *)
Theorem validate_fixed_points (messages : list Message) :
  validate messages = Some messages ↔ sanitized messages.
Proof.
  split; [apply validate_sanitized | apply validate_of_sanitized].
Qed.

(** X3 — Every tool message the validator emits stands after an emitted
    assistant message that has an entry matching it. *)
Theorem validate_tool_has_parent history_messages final i t :
  validate history_messages = Some final →
  final !! i = Some t → msg_role t = Some "tool" →
  ∃ j a tool_calls,
    j < i ∧ final !! j = Some a ∧ msg_role a = Some "assistant"
    ∧ msg_tool_calls a = Some tool_calls
    ∧ any_call_matches tool_calls t = true.
Proof.
  intros Hfinal. apply sanitized_tool_has_parent.
  by eapply validate_sanitized.
Qed.

Lemma validate_tool_has_parent_witness :
  ∃ j a tool_calls,
    j < 2 ∧ mixed_final !! j = Some a ∧ msg_role a = Some "assistant"
    ∧ msg_tool_calls a = Some tool_calls
    ∧ any_call_matches tool_calls (tool_result "call_a" "f" "ra") = true.
Proof.
  apply (validate_tool_has_parent mixed_history mixed_final 2
           (tool_result "call_a" "f" "ra")).
  - vm_compute. reflexivity.
  - reflexivity.
  - reflexivity.
Defined.

Lemma sanitized_head_not_tool l m :
  sanitized l → head l = Some m → msg_role m ≠ Some "tool".
Proof.
  destruct 1 as [|r c rest Hr _|a tool_calls ts rest Ha _ _ _ _]; simpl.
  - done.
  - intros [= <-]. simpl. congruence.
  - intros [= <-]. rewrite <- Ha. done.
Qed.

Lemma sanitized_chain_at l :
  sanitized l →
  ∀ i a tool_calls,
    l !! i = Some a → msg_role a = Some "assistant" →
    msg_tool_calls a = Some tool_calls →
    ∃ ts rest,
      drop (S i) l = ts ++ rest ∧ length ts = length tool_calls
      ∧ Forall (tool_out tool_calls) ts ∧ sanitized rest.
Proof.
  induction 1 as [|r c rest Hr _ IH|a0 tcs0 ts0 rest0 Ha Hc Hts Hlen Hrest IH];
    intros i a tool_calls Hi Hrole Hcalls.
  - done.
  - destruct i as [|i]; simpl in Hi.
    + simplify_eq/=.
    + by apply (IH i a tool_calls).
  - destruct i as [|i]; simpl in Hi.
    + simplify_eq. by exists ts0, rest0.
    + apply lookup_app_Some in Hi as [Hi|[Hge Hi]].
      * apply (Forall_lookup_1 _ _ _ _ Hts) in Hi as (Ht & _). congruence.
      * destruct (IH _ a tool_calls Hi Hrole Hcalls)
          as (ts & rest & Hdrop & Hr).
        exists ts, rest. split; [|done].
        change (drop (S (S i)) (a0 :: ts0 ++ rest0))
          with (drop (S i) (ts0 ++ rest0)).
        rewrite drop_app_ge by lia.
        by replace (S i - length ts0) with (S (i - length ts0)) by lia.
Qed.

(** X4 — Every assistant message the validator emits with a [tool_calls] key is
    directly followed by as many tool messages as the key has entries, each
    matching some entry, and what comes next is no tool message. *)
Theorem validate_chain_followed_by_answers history_messages final i a tool_calls :
  validate history_messages = Some final →
  final !! i = Some a → msg_role a = Some "assistant" →
  msg_tool_calls a = Some tool_calls →
  ∃ ts rest,
    drop (S i) final = ts ++ rest ∧ length ts = length tool_calls
    ∧ Forall (λ t, msg_role t = Some "tool"
                   ∧ any_call_matches tool_calls t = true) ts
    ∧ ∀ m, head rest = Some m → msg_role m ≠ Some "tool".
Proof.
  intros Hfinal Hi Hrole Hcalls. apply validate_sanitized in Hfinal.
  destruct (sanitized_chain_at _ Hfinal i a tool_calls Hi Hrole Hcalls)
    as (ts & rest & Hdrop & Hlen & Hts & Hrest).
  exists ts, rest. split; [done|]. split; [done|]. split.
  - eapply Forall_impl; [exact Hts|]. by intros t (? & _ & _ & ?).
  - intros m. by apply sanitized_head_not_tool.
Qed.

Lemma validate_chain_followed_by_answers_witness :
  ∃ ts rest,
    drop 2 mixed_final = ts ++ rest ∧ length ts = 1
    ∧ Forall (λ t, msg_role t = Some "tool"
                   ∧ any_call_matches [call "call_a" "f"] t = true) ts
    ∧ ∀ m, head rest = Some m → msg_role m ≠ Some "tool".
Proof.
  apply (validate_chain_followed_by_answers mixed_history mixed_final 1
           (assistant_calls [call "call_a" "f"]) [call "call_a" "f"]).
  - vm_compute. reflexivity.
  - reflexivity.
  - reflexivity.
  - reflexivity.
Defined.

Lemma orphan_pass_length history_messages :
  ∀ earlier, length (orphan_pass earlier history_messages)
             ≤ length history_messages.
Proof.
  induction history_messages as [|msg rest IH]; intros earlier; [done|].
  simpl. destruct (_ && _); simpl; specialize (IH (msg :: earlier)); lia.
Qed.

Lemma chain_pass_length valid_messages :
  ∀ skip final, chain_pass skip valid_messages = Some final →
    length final ≤ length valid_messages - skip.
Proof.
  induction valid_messages as [|msg rest IH]; intros skip final; simpl.
  { intros [= <-]. simpl. lia. }
  destruct skip as [|skip']; [|by apply IH].
  destruct (assistant_with_tool_calls msg).
  - case_bool_decide as Hlen.
    + destruct (mapM tool_msg _) as [tms|] eqn:Htms; [|done]; simpl.
      destruct (chain_pass _ rest) as [tail|] eqn:Htail; [|done]; simpl.
      intros [= <-]. apply IH in Htail.
      apply length_mapM in Htms.
      pose proof (sublist_length _ _
                    (collect_responses_sublist
                       (default [] (msg_tool_calls msg)) rest)).
      simpl. rewrite length_app. lia.
    + intros Htail. apply IH in Htail. lia.
  - destruct (role_is msg "tool").
    + intros Htail. apply IH in Htail. lia.
    + destruct (plain_msg msg); [|done]; simpl.
      destruct (chain_pass 0 rest) as [tail|] eqn:Htail; [|done]; simpl.
      intros [= <-]. apply IH in Htail. simpl. lia.
Qed.

(** X5 — The validator never hands back more messages than it was given. *)
Theorem validate_length history_messages final :
  validate history_messages = Some final →
  length final ≤ length history_messages.
Proof.
  intros Hfinal. apply chain_pass_length in Hfinal.
  pose proof (orphan_pass_length history_messages []). lia.
Qed.

Lemma validate_length_witness :
  length mixed_final ≤ length mixed_history.
Proof.
  apply (validate_length mixed_history mixed_final). vm_compute. reflexivity.
Defined.

End ValidatorExtras.

(** * Further properties of the history window *)

Module HistoryExtras.
Import History HistoryFacts Samples World.

Lemma StronglySorted_take {A} (R : relation A) (l : list A) n :
  StronglySorted R l → StronglySorted R (take n l).
Proof.
  intros Hl. rewrite <- (take_drop n l) in Hl.
  by apply StronglySorted_app_1_l in Hl.
Qed.

Lemma StronglySorted_reverse {A} (R : relation A) (l : list A) :
  StronglySorted R l → StronglySorted (flip R) (reverse l).
Proof.
  induction 1 as [|x l _ IH Hx]; [constructor|].
  rewrite reverse_cons. apply StronglySorted_app_2; [|done|].
  - intros x1 x2 Hx1 ->%list_elem_of_singleton. unfold flip.
    rewrite elem_of_reverse in Hx1.
    rewrite list.Forall_forall in Hx. by apply Hx.
  - repeat constructor.
Qed.

Section Window.
Context (json_loads : string → option Json) (max_history_messages : nat).

#[local] Abbreviation window_rows :=
  (window_rows json_loads max_history_messages).
#[local] Abbreviation get_history :=
  (get_history json_loads max_history_messages).

(** The rows of the window are the first rows of the session, newest
    first. *)
Lemma window_rows_prefix chat_messages session_id :
  ∃ k, window_rows chat_messages session_id
       = take k (session_messages_desc chat_messages session_id).
Proof.
  destruct (decide (session_id = "")) as [->|Hs].
  { exists 0. by rewrite window_rows_empty_session. }
  destruct (window_rows_spec json_loads max_history_messages
              chat_messages session_id Hs) as (k & -> & _).
  exists (k `min` (max_history_messages * 2)).
  unfold select_recent. by rewrite take_take.
Qed.

(** X6 — [get_history] reads the rows of the asked session only: every entry of
    the returned history is built from a stored row of that session. *)
Theorem get_history_own_session chat_messages session_id :
  ∃ rows,
    get_history chat_messages session_id = message_dict json_loads <$> rows
    ∧ ∀ row, row ∈ rows →
        cm_session_id row = session_id ∧ row ∈ chat_messages.
Proof.
  exists (reverse (window_rows chat_messages session_id)).
  split; [done|]. intros row Hrow. rewrite elem_of_reverse in Hrow.
  destruct (window_rows_prefix chat_messages session_id) as (k & Hk).
  rewrite Hk in Hrow.
  apply (session_messages_desc_session chat_messages session_id).
  exact (subseteq_take k _ row Hrow).
Qed.

(** X7 — [get_history] returns the messages in the order of the conversation:
    its entries are built, one per row and in this order, from the newest
    rows of the session taken oldest first, that is from the reverse of a
    prefix of the session's rows sorted by [created_at], then [id], newest
    first. *)
Theorem get_history_chronological chat_messages session_id :
  let all_desc := session_messages_desc chat_messages session_id in
  all_desc ≡ₚ filter (λ m, cm_session_id m = session_id) chat_messages
  ∧ StronglySorted newest_first all_desc
  ∧ ∃ k,
      get_history chat_messages session_id
      = message_dict json_loads <$> reverse (take k all_desc)
      ∧ StronglySorted oldest_first (reverse (take k all_desc)).
Proof.
  intros all_desc. split; [apply merge_sort_Permutation|].
  split; [apply session_messages_desc_sorted|].
  destruct (window_rows_prefix chat_messages session_id) as (k & Hk).
  exists k. unfold History.get_history. rewrite Hk. split; [done|].
  apply StronglySorted_reverse, StronglySorted_take,
    session_messages_desc_sorted.
Qed.

(** X8 — A session that holds no more rows than the window size is returned
    whole. *)
Theorem get_history_short_session chat_messages session_id :
  session_id ≠ "" →
  length (session_messages_desc chat_messages session_id)
    ≤ max_history_messages →
  get_history chat_messages session_id
  = message_dict json_loads
      <$> reverse (session_messages_desc chat_messages session_id).
Proof.
  intros Hs Hlen. unfold History.get_history. do 2 f_equal.
  destruct (window_rows_spec json_loads max_history_messages
              chat_messages session_id Hs) as (k & -> & Hk & _).
  unfold select_recent in *.
  rewrite (take_ge (session_messages_desc chat_messages session_id)) in *
    by lia.
  apply take_ge. lia.
Qed.

Lemma get_history_newest_end chat_messages session_id :
  session_id ≠ "" →
  ∃ older,
    get_history chat_messages session_id
    = older
      ++ (message_dict json_loads
            <$> reverse (take max_history_messages
                           (session_messages_desc chat_messages session_id))).
Proof.
  intros Hs.
  destruct (window_rows_spec json_loads max_history_messages
              chat_messages session_id Hs) as (k & Hw & Hk & _).
  set (all_desc := session_messages_desc chat_messages session_id) in *.
  set (recent := select_recent chat_messages session_id
                   (max_history_messages * 2)) in *.
  assert (take max_history_messages all_desc
          = take max_history_messages recent) as ->.
  { unfold recent, select_recent. fold all_desc. rewrite take_take.
    f_equal. lia. }
  exists (message_dict json_loads
            <$> reverse (drop max_history_messages (take k recent))).
  unfold History.get_history. rewrite Hw, <- fmap_app, <- reverse_app.
  do 2 f_equal.
  assert (take max_history_messages recent
          = take max_history_messages (take k recent)) as ->.
  { rewrite take_take. destruct (decide (max_history_messages ≤ k)).
    - f_equal. lia.
    - rewrite !take_ge by lia. done. }
  by rewrite take_drop.
Qed.

(** X9 — The newest [max_history_messages] rows of a session are always part of
    the window, as its newest end. *)
Theorem get_history_keeps_newest chat_messages session_id :
  session_id ≠ "" →
  ∃ older,
    get_history chat_messages session_id
    = older
      ++ (message_dict json_loads
            <$> reverse (take max_history_messages
                           (session_messages_desc chat_messages session_id))).
Proof. apply get_history_newest_end. Qed.

End Window.

Lemma get_history_short_session_witness :
  get_history sample_loads 10 straddling_table "s"
  = message_dict sample_loads
      <$> reverse (session_messages_desc straddling_table "s").
Proof.
  apply (get_history_short_session sample_loads 10 straddling_table "s").
  - done.
  - vm_compute. lia.
Defined.

Lemma get_history_keeps_newest_witness :
  ∃ older,
    get_history sample_loads 2 straddling_table "s"
    = older
      ++ (message_dict sample_loads
            <$> reverse (take 2 (session_messages_desc straddling_table "s"))).
Proof.
  apply (get_history_keeps_newest sample_loads 2 straddling_table "s").
  done.
Defined.

End HistoryExtras.

(** * Properties of the stored history *)

Module StoreExtras.
Import History HistoryFacts HistoryExtras Turn Samples World.

Lemma filter_all {A} (P : A → Prop) `{∀ x, Decision (P x)} (l : list A) :
  Forall P l → filter P l = l.
Proof.
  induction 1 as [|x l Hx _ IH]; [done|].
  by rewrite filter_cons_True, IH.
Qed.

Lemma filter_none {A} (P : A → Prop) `{∀ x, Decision (P x)} (l : list A) :
  Forall (λ x, ¬ P x) l → filter P l = [].
Proof.
  induction 1 as [|x l Hx _ IH]; [done|].
  by rewrite filter_cons_False.
Qed.

Section Rows.
Context (json_dumps : Message → string)
        (commit_ok : Database → list ChatMessage → bool).

#[local] Abbreviation new_rows := (new_rows json_dumps).
#[local] Abbreviation update_history :=
  (update_history json_dumps commit_ok).
#[local] Abbreviation save_to_memory :=
  (save_to_memory json_dumps commit_ok).

(** The rows written for a batch: one per message, in order, with
    consecutive ids, the session id and the time of the commit. *)
Lemma new_rows_lookup session_id new_messages first_id now i :
  new_rows session_id new_messages first_id now !! i
  = (λ msg, {| cm_id := first_id + Z.of_nat i;
               cm_session_id := session_id;
               cm_role := default "unknown" (msg_role msg);
               cm_content := json_dumps msg;
               cm_created_at := now |}) <$> new_messages !! i.
Proof. unfold Turn.new_rows. by rewrite list_lookup_imap. Qed.

Lemma new_rows_length session_id new_messages first_id now :
  length (new_rows session_id new_messages first_id now)
  = length new_messages.
Proof. apply length_imap. Qed.

Lemma new_rows_elem session_id new_messages first_id now row :
  row ∈ new_rows session_id new_messages first_id now →
  cm_session_id row = session_id ∧ cm_created_at row = now
  ∧ (first_id ≤ cm_id row < first_id + Z.of_nat (length new_messages))%Z.
Proof.
  intros (i & Hi)%list_elem_of_lookup. rewrite new_rows_lookup in Hi.
  destruct (new_messages !! i) as [msg|] eqn:Hmsg; simplify_eq/=.
  apply lookup_lt_Some in Hmsg. repeat split; lia.
Qed.

Lemma new_rows_ids_NoDup session_id new_messages first_id now :
  NoDup (cm_id <$> new_rows session_id new_messages first_id now).
Proof.
  apply NoDup_alt. intros i j x Hi Hj.
  rewrite list_lookup_fmap, new_rows_lookup in Hi, Hj.
  destruct (new_messages !! i); destruct (new_messages !! j);
    simplify_eq/=. lia.
Qed.

(** Within a batch the later message is the newer row. *)
Lemma new_rows_sorted session_id new_messages first_id now :
  StronglySorted oldest_first
    (new_rows session_id new_messages first_id now).
Proof.
  unfold Turn.new_rows. revert first_id.
  induction new_messages as [|msg rest IH]; intros first_id; [constructor|].
  rewrite imap_cons. constructor.
  - eapply (eq_rect _ (StronglySorted oldest_first) (IH (first_id + 1)%Z)).
    apply imap_ext. intros i m _. simpl. f_equal. lia.
  - apply list.Forall_forall. intros row (i & m & -> & _)%elem_of_lookup_imap.
    unfold oldest_first, flip, newest_first. simpl. lia.
Qed.

(** A write that goes through appends the rows of the batch. *)
Lemma update_history_rows session_id new_messages db now db' :
  session_id ≠ "" →
  update_history session_id new_messages db now = Some db' →
  db_chat_messages db'
  = db_chat_messages db
    ++ new_rows session_id new_messages (db_next_id db) now.
Proof.
  intros Hs. unfold Turn.update_history.
  rewrite (bool_decide_false (session_id = "")) by done. simpl.
  case_bool_decide as Hnil.
  - intros [= <-]. subst. simpl. by rewrite app_nil_r.
  - destruct (commit_ok _ _); [|done]. by intros [= <-].
Qed.

Lemma update_history_no_session new_messages db now :
  update_history "" new_messages db now = Some db.
Proof. reflexivity. Qed.

(** A write that is refused, or not attempted, leaves the table alone. *)
Lemma save_to_memory_cases session_id messages db now :
  save_to_memory session_id messages db now = db
  ∨ update_history session_id messages db now
    = Some (save_to_memory session_id messages db now).
Proof.
  unfold Turn.save_to_memory.
  destruct (update_history session_id messages db now); [by right | by left].
Qed.

(** [update_history] only appends. *)
Lemma update_history_prefix session_id new_messages db now db' :
  update_history session_id new_messages db now = Some db' →
  db_chat_messages db `prefix_of` db_chat_messages db'.
Proof.
  destruct (decide (session_id = "")) as [->|Hs].
  { rewrite update_history_no_session. by intros [= <-]. }
  intros Hwrite. rewrite (update_history_rows _ _ _ _ _ Hs Hwrite).
  by apply prefix_app_r.
Qed.

Lemma save_to_memory_prefix session_id messages db now :
  db_chat_messages db
    `prefix_of` db_chat_messages (save_to_memory session_id messages db now).
Proof.
  destruct (save_to_memory_cases session_id messages db now) as [->|Hwrite];
    [done | by eapply update_history_prefix].
Qed.

Lemma update_history_wf session_id new_messages db now db' :
  db_wf db → update_history session_id new_messages db now = Some db' →
  db_wf db'.
Proof.
  intros [Hnodup Hbelow]. unfold Turn.update_history.
  destruct (_ || _); [by intros [= <-]|].
  destruct (commit_ok _ _); [|done]. intros [= <-]. split; simpl.
  - rewrite fmap_app. apply NoDup_app. split; [done|]. split.
    + intros id (old & -> & Hold)%list_elem_of_fmap
                (new & Hid & Hnew)%list_elem_of_fmap.
      rewrite list.Forall_forall in Hbelow. specialize (Hbelow old Hold).
      apply new_rows_elem in Hnew as (_ & _ & Hnew). simpl in *. lia.
    + apply new_rows_ids_NoDup.
  - apply Forall_app. split.
    + eapply Forall_impl; [exact Hbelow|]. simpl. intros; lia.
    + apply list.Forall_forall. intros row (_ & _ & Hrow)%new_rows_elem. lia.
Qed.

(** X10 — [update_history] keeps the primary key: after a write that returns,
    the ids are still distinct and below the next value of the sequence; and
    so they are after [save_to_memory], whether the write went through or
    was refused. *)
Theorem update_history_keeps_ids session_id new_messages db now :
  db_wf db →
  (∀ db', update_history session_id new_messages db now = Some db' →
          db_wf db')
  ∧ db_wf (save_to_memory session_id new_messages db now).
Proof.
  intros Hwf. split.
  - intros db'. by apply update_history_wf.
  - destruct (save_to_memory_cases session_id new_messages db now)
      as [->|Hwrite]; [done | by eapply update_history_wf].
Qed.

(** Writing to one session leaves the rows of every other session as they
    were. *)
Lemma update_history_other_session session_id new_messages db now db' other :
  update_history session_id new_messages db now = Some db' →
  other ≠ session_id →
  session_messages_desc (db_chat_messages db') other
  = session_messages_desc (db_chat_messages db) other.
Proof.
  intros Hwrite Hother.
  destruct (decide (session_id = "")) as [->|Hs].
  { rewrite update_history_no_session in Hwrite. by simplify_eq. }
  rewrite (update_history_rows _ _ _ _ _ Hs Hwrite).
  unfold session_messages_desc.
  rewrite filter_app, (filter_none _ (new_rows _ _ _ _)), app_nil_r; [done|].
  apply list.Forall_forall. intros row (Hrow & _)%new_rows_elem. congruence.
Qed.

Lemma save_to_memory_other_session session_id messages db now other :
  other ≠ session_id →
  session_messages_desc
    (db_chat_messages (save_to_memory session_id messages db now)) other
  = session_messages_desc (db_chat_messages db) other.
Proof.
  intros Hother.
  destruct (save_to_memory_cases session_id messages db now) as [->|Hwrite];
    [done | by eapply update_history_other_session].
Qed.

(** After a write, the rows of the session, newest first, are the new rows
    in reverse followed by the rows that were there, as long as the clock
    did not run backwards. *)
Lemma update_history_session_desc session_id new_messages db now db' :
  db_wf db → session_id ≠ "" →
  Forall (λ row, (cm_created_at row ≤ now)%Z) (db_chat_messages db) →
  update_history session_id new_messages db now = Some db' →
  session_messages_desc (db_chat_messages db') session_id
  = reverse (new_rows session_id new_messages (db_next_id db) now)
    ++ session_messages_desc (db_chat_messages db) session_id.
Proof.
  intros Hwf Hs Hclock Hwrite.
  pose proof (update_history_wf _ _ _ _ _ Hwf Hwrite) as [Hnodup _].
  rewrite (update_history_rows _ _ _ _ _ Hs Hwrite) in *.
  set (rows := db_chat_messages db) in *.
  set (new := new_rows session_id new_messages (db_next_id db) now) in *.
  unfold session_messages_desc at 1.
  rewrite filter_app, (filter_all _ new).
  2:{ apply list.Forall_forall. by intros row (Hrow & _)%new_rows_elem. }
  apply (StronglySorted_unique_strong newest_first).
  - intros x y Hx Hy Hxy Hyx.
    rewrite merge_sort_Permutation in Hx.
    assert (x ∈ rows ++ new) as Hx'.
    { apply elem_of_app in Hx as [Hx%list_elem_of_filter|Hx];
        apply elem_of_app; [left; apply Hx | by right]. }
    assert (y ∈ rows ++ new) as Hy'.
    { apply elem_of_app in Hy as [Hy|Hy]; apply elem_of_app.
      - right. by rewrite elem_of_reverse in Hy.
      - left. by apply (session_messages_desc_session rows session_id). }
    assert (cm_id x = cm_id y) as Hid
      by (unfold newest_first in *; lia).
    apply list_elem_of_lookup in Hx' as [i Hi].
    apply list_elem_of_lookup in Hy' as [j Hj].
    assert (i = j) as ->; [|congruence].
    eapply (NoDup_lookup _ i j (cm_id x) Hnodup);
      rewrite list_lookup_fmap; [by rewrite Hi | by rewrite Hj, Hid].
  - apply StronglySorted_merge_sort;
      [apply newest_first_trans | apply newest_first_total].
  - apply StronglySorted_app_2.
    + intros x y Hx Hy. rewrite elem_of_reverse in Hx.
      apply new_rows_elem in Hx as (_ & Hnow & Hidx).
      apply session_messages_desc_session in Hy as [_ Hy].
      destruct Hwf as [_ Hbelow]. rewrite list.Forall_forall in Hbelow, Hclock.
      specialize (Hbelow y Hy). specialize (Hclock y Hy).
      unfold newest_first. fold rows in Hbelow. lia.
    + apply (StronglySorted_reverse oldest_first), new_rows_sorted.
    + apply session_messages_desc_sorted.
  - rewrite merge_sort_Permutation. unfold session_messages_desc.
    rewrite merge_sort_Permutation, reverse_Permutation.
    apply Permutation_app_comm.
Qed.

End Rows.

Lemma update_history_keeps_ids_witness :
  (∀ db', Turn.update_history sample_dumps accept_all "s"
            [user "q"; assistant "a"] stored_db 1700000100 = Some db' →
          db_wf db')
  ∧ db_wf (Turn.save_to_memory sample_dumps accept_all "s"
             [user "q"; assistant "a"] stored_db 1700000100).
Proof.
  apply (update_history_keeps_ids sample_dumps accept_all "s"
           [user "q"; assistant "a"] stored_db 1700000100).
  split.
  - apply (bool_decide_unpack _). vm_compute. exact I.
  - apply (bool_decide_unpack _). vm_compute. exact I.
Defined.

End StoreExtras.

(** * Further properties of one turn *)

Module TurnExtras.
Import Validator Shape ValidatorFacts History HistoryFacts HistoryExtras.
Import Dispatch DispatchFacts Turn StoreExtras Samples World.

Lemma sanitized_app l1 l2 : sanitized l1 → sanitized l2 → sanitized (l1 ++ l2).
Proof.
  induction 1 as [|r c rest Hr _ IH|a tool_calls ts rest Ha Hc Hts Hlen _ IH];
    intros Hl2; simpl.
  - done.
  - constructor; [done | by apply IH].
  - rewrite <- app_assoc. econstructor; eauto.
Qed.

Section OneTurn.
Context {Args : Type}.
Context (empty_args : Args)
        (json_loads_args : string → string + Args)
        (get_tool : string → option (Args → Outcome))
        (json_loads : string → option Json)
        (json_dumps : Message → string)
        (commit_ok : Database → list ChatMessage → bool)
        (max_history_messages : nat)
        (client_configured : bool)
        (decision_api : list Message → string + ModelMessage)
        (summary_api : list Message → string + string).

#[local] Abbreviation get_history :=
  (History.get_history json_loads max_history_messages).
#[local] Abbreviation update_history :=
  (Turn.update_history json_dumps commit_ok).
#[local] Abbreviation save_to_memory :=
  (Turn.save_to_memory json_dumps commit_ok).
#[local] Abbreviation decide_turn :=
  (get_model_decision client_configured decision_api).
#[local] Abbreviation summarize :=
  (get_summary_from_tool_results client_configured summary_api).
#[local] Abbreviation context_of request db :=
  (format_messages_with_memory json_loads max_history_messages
     (req_query request) (req_session_id request)
     (req_system_prompt request) db).
#[local] Abbreviation execute_tool :=
  (Dispatch.execute_tool empty_args json_loads_args get_tool).
#[local] Abbreviation results_of :=
  (tool_results empty_args json_loads_args get_tool).
#[local] Abbreviation called_of :=
  (tools_called empty_args json_loads_args).
#[local] Abbreviation summary_context model_decision request db :=
  (messages_for_summary empty_args json_loads_args get_tool model_decision
     (context_of request db) (plain_message "user" (req_query request))).
#[local] Abbreviation tool_batch :=
  (Turn.tool_batch empty_args json_loads_args get_tool).
#[local] Abbreviation turn :=
  (llm_with_tools empty_args json_loads_args get_tool json_loads json_dumps
     commit_ok max_history_messages client_configured decision_api
     summary_api).

(** What a saved batch reads back as. *)
Lemma message_dict_new_rows session_id new_messages first_id now :
  Forall (λ msg, json_loads (json_dumps msg) = Some (JDict msg)) new_messages →
  message_dict json_loads
    <$> new_rows json_dumps session_id new_messages first_id now
  = JDict <$> new_messages.
Proof.
  intros Hcodec. apply list_eq. intros i.
  rewrite !list_lookup_fmap, new_rows_lookup.
  destruct (new_messages !! i) as [msg|] eqn:Hmsg; [|done]. simpl.
  unfold message_dict. simpl.
  by rewrite (Forall_lookup_1 _ _ _ _ Hcodec Hmsg).
Qed.

(** X11 — Round trip through the table: when the texts written for a batch parse
    back to its messages, the clock did not run backwards and the batch fits
    the window, the history read after [update_history] has returned ends
    with the messages of the batch, in the order they were given. *)
Theorem saved_messages_read_back session_id new_messages db now db' :
  Forall (λ msg, json_loads (json_dumps msg) = Some (JDict msg)) new_messages →
  db_wf db → session_id ≠ "" →
  Forall (λ row, (cm_created_at row ≤ now)%Z) (db_chat_messages db) →
  length new_messages ≤ max_history_messages →
  update_history session_id new_messages db now = Some db' →
  ∃ older,
    get_history (db_chat_messages db') session_id
    = older ++ (JDict <$> new_messages).
Proof.
  intros Hcodec Hwf Hs Hclock Hfit Hwrite.
  destruct (get_history_newest_end json_loads max_history_messages
              (db_chat_messages db') session_id Hs) as (older & ->).
  rewrite (update_history_session_desc json_dumps commit_ok
             session_id new_messages db now db') by done.
  set (new := new_rows json_dumps session_id new_messages (db_next_id db) now).
  assert (length new = length new_messages) as Hlen
    by apply new_rows_length.
  rewrite take_app, (take_ge (reverse new)) by (rewrite length_reverse; lia).
  rewrite reverse_app, reverse_involutive, fmap_app.
  unfold new. rewrite (message_dict_new_rows _ _ _ _ Hcodec).
  eexists. by rewrite app_assoc.
Qed.

(** The table after a turn is the table before it, or the table before it
    with one batch saved for the session of the request. *)
Lemma turn_db request db now :
  (turn request db now).2 = db
  ∨ ∃ batch,
      (turn request db now).2
      = save_to_memory (req_session_id request) batch db now.
Proof.
  unfold llm_with_tools.
  destruct (decide_turn _) as [e|model_decision]; [by left|].
  destruct (if requests_tools model_decision then _ else _)
    as [e|[final_answer batch]]; [by left|].
  right. exists batch. by destruct (called_of _).
Qed.

(** X12 — A turn never removes or rewrites a stored row. *)
Theorem turn_only_appends request db now :
  db_chat_messages db
    `prefix_of`
    db_chat_messages
      (llm_with_tools empty_args json_loads_args get_tool json_loads
         json_dumps commit_ok max_history_messages client_configured
         decision_api summary_api request db now).2.
Proof.
  destruct (turn_db request db now) as [->|(batch & ->)]; [done|].
  apply save_to_memory_prefix.
Qed.

(** X13 — A turn in one session leaves the history of every other session as it
    was. *)
Theorem turn_keeps_other_sessions request db now other :
  other ≠ req_session_id request →
  get_history (db_chat_messages (turn request db now).2) other
  = get_history (db_chat_messages db) other.
Proof.
  intros Hother.
  destruct (turn_db request db now) as [->|(batch & ->)]; [done|].
  unfold History.get_history, History.window_rows, select_recent.
  by rewrite (save_to_memory_other_session json_dumps commit_ok).
Qed.

End OneTurn.

Lemma stored_db_wf : db_wf stored_db.
Proof.
  split.
  - apply (bool_decide_unpack _). vm_compute. exact I.
  - apply (bool_decide_unpack _). vm_compute. exact I.
Defined.

Lemma saved_messages_read_back_witness :
  ∃ older,
    History.get_history sample_loads 2
      (db_chat_messages
         {| db_chat_messages :=
              db_chat_messages stored_db
              ++ Turn.new_rows sample_dumps "s" [user "q"; assistant "a"]
                   7 1700000100;
            db_next_id := 9 |})
      "s"
    = older ++ (JDict <$> [user "q"; assistant "a"]).
Proof.
  apply (saved_messages_read_back sample_loads sample_dumps accept_all 2 "s"
           [user "q"; assistant "a"] stored_db 1700000100).
  - repeat constructor.
  - exact stored_db_wf.
  - done.
  - apply (bool_decide_unpack _). vm_compute. exact I.
  - simpl. lia.
  - reflexivity.
Defined.

Lemma turn_keeps_other_sessions_witness :
  History.get_history sample_loads 2
    (db_chat_messages
       (llm_with_tools "{}" sample_loads_args sample_tools sample_loads
          sample_dumps accept_all 2 true tool_decision failing_summary
          (sample_request "s") stored_db 1700000100).2)
    "other"
  = History.get_history sample_loads 2 (db_chat_messages stored_db) "other".
Proof.
  apply (turn_keeps_other_sessions "{}" sample_loads_args sample_tools
           sample_loads sample_dumps accept_all 2 true tool_decision
           failing_summary (sample_request "s") stored_db 1700000100 "other").
  done.
Defined.

End TurnExtras.

(** * The branches of a turn *)

Module TurnBranches.
Import Validator Shape ValidatorFacts History Dispatch DispatchFacts Turn.
Import StoreExtras TurnExtras Samples World MoreWorld.

Section OneTurn.
Context {Args : Type}.
Context (empty_args : Args)
        (json_loads_args : string → string + Args)
        (get_tool : string → option (Args → Outcome))
        (json_loads : string → option Json)
        (json_dumps : Message → string)
        (commit_ok : Database → list ChatMessage → bool)
        (max_history_messages : nat)
        (client_configured : bool)
        (decision_api : list Message → string + ModelMessage)
        (summary_api : list Message → string + string).

#[local] Abbreviation save_to_memory :=
  (Turn.save_to_memory json_dumps commit_ok).
#[local] Abbreviation decide_turn :=
  (get_model_decision client_configured decision_api).
#[local] Abbreviation summarize :=
  (get_summary_from_tool_results client_configured summary_api).
#[local] Abbreviation context_of request db :=
  (format_messages_with_memory json_loads max_history_messages
     (req_query request) (req_session_id request)
     (req_system_prompt request) db).
#[local] Abbreviation execute_tool :=
  (Dispatch.execute_tool empty_args json_loads_args get_tool).
#[local] Abbreviation called_of :=
  (tools_called empty_args json_loads_args).
#[local] Abbreviation summary_context model_decision request db :=
  (messages_for_summary empty_args json_loads_args get_tool model_decision
     (context_of request db) (plain_message "user" (req_query request))).
#[local] Abbreviation tool_batch :=
  (Turn.tool_batch empty_args json_loads_args get_tool).
#[local] Abbreviation turn :=
  (llm_with_tools empty_args json_loads_args get_tool json_loads json_dumps
     commit_ok max_history_messages client_configured decision_api
     summary_api).

(** X14 — The context handed to the model is always chain-safe, whatever the
    table holds: the validator would return it unchanged, and its last
    message is the user's query. *)
Theorem context_is_chain_safe (query session_id : string)
    (system_prompt : option string) (db : Database) :
  let messages :=
    format_messages_with_memory json_loads max_history_messages
      query session_id system_prompt db in
  validate messages = Some messages
  ∧ last messages = Some (plain_message "user" query).
Proof.
  intros messages. unfold messages, format_messages_with_memory. split.
  - apply ValidatorExtras.validate_of_sanitized.
    apply sanitized_app; [|apply sanitized_app].
    + destruct (truthy system_prompt); repeat constructor. done.
    + unfold history_part.
      destruct (mapM as_dict _) as [dicts|]; simpl; [|constructor].
      destruct (validate dicts) as [final|] eqn:Hfinal; simpl;
        [|constructor].
      by eapply validate_sanitized.
    + repeat constructor. done.
  - by rewrite !app_assoc, last_snoc.
Qed.

(** X15 — A decision without tool calls: the turn succeeds, its answer is the
    content of the decision when that is a text that is not empty and the
    fixed fallback text otherwise, so the answer is never empty, and it
    reports no tool. *)
Theorem direct_answer_never_empty (request : LLMWithToolsRequest)
    (db : Database) (now : Z) (model_decision : ModelMessage) :
  decide_turn (context_of request db) = inr model_decision →
  requests_tools model_decision = false →
  ∃ response,
    (turn request db now).1 = inr response
    ∧ resp_response response
      = match mm_content model_decision with
        | Some content => if bool_decide (content = "") then no_answer
                          else content
        | None => no_answer
        end
    ∧ resp_response response ≠ ""
    ∧ resp_success response = true
    ∧ resp_session_id response = req_session_id request
    ∧ resp_tools_called response = [].
Proof.
  intros Hdecision Htools. unfold llm_with_tools.
  rewrite Hdecision, Htools. simpl. eexists. split; [reflexivity|]. simpl.
  unfold truthy. destruct (mm_content model_decision) as [content|]; simpl.
  - case_bool_decide as Hempty; simpl; [by subst | done].
  - done.
Qed.

(** The rows a turn leaves behind: the batch, when the write is attempted and
    accepted; nothing, when it is refused. *)
Lemma save_to_memory_rows session_id messages db now :
  session_id ≠ "" →
  db_chat_messages (save_to_memory session_id messages db now)
  = db_chat_messages db
    ++ (if commit_ok db
             (new_rows json_dumps session_id messages (db_next_id db) now)
        then new_rows json_dumps session_id messages (db_next_id db) now
        else []).
Proof.
  intros Hs. unfold Turn.save_to_memory, Turn.update_history.
  rewrite (bool_decide_false (session_id = "")) by done. simpl.
  case_bool_decide as Hnil.
  - subst. simpl. by destruct (commit_ok _ _); rewrite app_nil_r.
  - destruct (commit_ok _ _); [done|]. by rewrite app_nil_r.
Qed.

(** X16 — The answer a successful turn returns is the answer it stores, when it
    stores anything: for a session id that is not empty, the turn has one
    batch that starts with the user's message and ends with an assistant
    message whose content is the text of the response; the rows it appends
    are the rows of that batch when the database accepts them, and none when
    it refuses them (the response is the same in both cases). *)
Theorem answer_returned_is_answer_stored (request : LLMWithToolsRequest)
    (db : Database) (now : Z) (response : LLMWithToolsResponse Args) :
  (turn request db now).1 = inr response →
  req_session_id request ≠ "" →
  ∃ middle,
    let rows :=
      new_rows json_dumps (req_session_id request)
        (plain_message "user" (req_query request)
           :: middle
           ++ [plain_message "assistant" (resp_response response)])
        (db_next_id db) now in
    db_chat_messages (turn request db now).2
    = db_chat_messages db ++ (if commit_ok db rows then rows else []).
Proof.
  unfold llm_with_tools. intros Hresponse Hs.
  destruct (decide_turn _) as [e|model_decision]; [done|].
  destruct (requests_tools model_decision).
  - unfold _handle_tool_calls in *.
    destruct (summarize _) as [e|final_answer]; [done|].
    destruct (called_of _) as [e|called]; [done|].
    simpl in *. simplify_eq. simpl.
    exists (assistant_message_with_tool_calls model_decision
              :: tool_results empty_args json_loads_args get_tool
                   model_decision).
    by rewrite save_to_memory_rows by done.
  - simpl in *. simplify_eq. simpl. exists [].
    by rewrite save_to_memory_rows by done.
Qed.

(** X17 — A decision with a tool call whose argument text does not parse: the
    tools run, the batch is handed to [save_to_memory], and only then
    building the response fails, so the caller gets an error for a turn that
    is stored whenever the database accepts the rows. *)
Theorem bad_arguments_fail_after_save (request : LLMWithToolsRequest)
    (db : Database) (now : Z) (model_decision : ModelMessage) (e : string) :
  decide_turn (context_of request db) = inr model_decision →
  requests_tools model_decision = true →
  called_of (default [] (mm_tool_calls model_decision)) = inl e →
  req_session_id request ≠ "" →
  ∃ final_answer,
    let rows :=
      new_rows json_dumps (req_session_id request)
        (tool_batch request model_decision final_answer)
        (db_next_id db) now in
    (turn request db now).1 = inl (internal_error e)
    ∧ db_chat_messages (turn request db now).2
      = db_chat_messages db ++ (if commit_ok db rows then rows else []).
Proof.
  intros Hdecision Htools Hcalled Hs.
  assert (∃ final_answer,
            summarize (summary_context model_decision request db)
            = inr final_answer) as [final_answer Hsummary].
  { unfold get_model_decision, get_summary_from_tool_results in *.
    destruct client_configured; [|done].
    destruct (summary_api _); eauto. }
  exists final_answer. unfold llm_with_tools.
  rewrite Hdecision, Htools. unfold _handle_tool_calls.
  rewrite Hsummary, Hcalled. simpl. split; [done|].
  by apply save_to_memory_rows.
Qed.

Lemma execute_tool_shape tool_call :
  ∃ content,
    execute_tool tool_call
    = tool_message (mtc_id tool_call) (mf_name (mtc_function tool_call))
        content.
Proof.
  unfold Dispatch.execute_tool.
  destruct (get_tool _) as [tool_to_call|]; [|eauto].
  destruct (parse_arguments _ _ _) as [e|tool_args]; [eauto|].
  destruct (tool_to_call tool_args); eauto.
Qed.

Lemma tool_call_info_matches tool_call content :
  mtc_id tool_call ≠ "" ∨ mf_name (mtc_function tool_call) ≠ "" →
  tool_call_matches (tool_call_info tool_call)
    (tool_message (mtc_id tool_call) (mf_name (mtc_function tool_call))
       content) = true.
Proof.
  intros Hne. unfold tool_call_matches, tool_call_name, truthy. simpl.
  rewrite !(bool_decide_true (Some _ = Some _)) by done.
  rewrite !andb_true_r. apply orb_true_iff.
  destruct Hne as [Hne|Hne]; [left|right];
    by rewrite bool_decide_false by done.
Qed.

(** X18 — The batch of a tool turn is a complete chain: when every requested call
    has an id or a name, the validator returns the batch unchanged, so what
    the turn saves is not dropped when it is read back. *)
Theorem tool_batch_passes_validator (request : LLMWithToolsRequest)
    (model_decision : ModelMessage) (final_answer : string) :
  Forall (λ tool_call, mtc_id tool_call ≠ ""
                       ∨ mf_name (mtc_function tool_call) ≠ "")
         (default [] (mm_tool_calls model_decision)) →
  validate (tool_batch request model_decision final_answer)
  = Some (tool_batch request model_decision final_answer).
Proof.
  intros Hcalls. apply ValidatorExtras.validate_of_sanitized.
  unfold Turn.tool_batch. simpl. constructor; [done|].
  eapply (sanitized_chain _
            (tool_call_info <$> default [] (mm_tool_calls model_decision))).
  - reflexivity.
  - reflexivity.
  - unfold tool_results. apply Forall_fmap.
    apply list.Forall_forall. intros tool_call Hin.
    destruct (execute_tool_shape tool_call) as [content Hshape].
    simpl. rewrite Hshape. repeat split; [by eexists|].
    unfold any_call_matches. apply existsb_exists.
    exists (tool_call_info tool_call). split.
    + apply list_elem_of_In, list_elem_of_fmap. eauto.
    + apply tool_call_info_matches.
      rewrite list.Forall_forall in Hcalls. by apply Hcalls.
  - unfold tool_results. by rewrite !length_fmap.
  - repeat constructor. done.
Qed.

End OneTurn.

Lemma direct_answer_never_empty_witness :
  ∃ response,
    (llm_with_tools "{}" sample_loads_args sample_tools sample_loads
       sample_dumps accept_all 2 true
       (λ _, inr {| mm_content := Some "4"; mm_tool_calls := None |})
       failing_summary (sample_request "s") empty_db 1700000100).1
    = inr response
    ∧ resp_response response = "4"
    ∧ resp_response response ≠ ""
    ∧ resp_success response = true
    ∧ resp_session_id response = "s"
    ∧ resp_tools_called response = [].
Proof.
  apply (direct_answer_never_empty "{}" sample_loads_args sample_tools
           sample_loads sample_dumps accept_all 2 true
           (λ _, inr {| mm_content := Some "4"; mm_tool_calls := None |})
           failing_summary (sample_request "s") empty_db 1700000100
           {| mm_content := Some "4"; mm_tool_calls := None |}).
  - reflexivity.
  - reflexivity.
Defined.

Lemma answer_returned_is_answer_stored_witness :
  ∃ middle,
    db_chat_messages
      (llm_with_tools "{}" sample_loads_args sample_tools sample_loads
         sample_dumps accept_all 2 true tool_decision (λ _, inr "2+2 is 4")
         (sample_request "s") empty_db 1700000100).2
    = db_chat_messages empty_db
      ++ new_rows sample_dumps "s"
           (plain_message "user" "2+2?"
              :: middle ++ [plain_message "assistant" "2+2 is 4"])
           (db_next_id empty_db) 1700000100.
Proof.
  apply (answer_returned_is_answer_stored "{}" sample_loads_args sample_tools
           sample_loads sample_dumps accept_all 2 true tool_decision
           (λ _, inr "2+2 is 4") (sample_request "s") empty_db 1700000100
           {| resp_success := true; resp_response := "2+2 is 4";
              resp_session_id := "s";
              resp_tools_called :=
                [("unknown_tool", "{}"); ("calculate", two_plus_two)] |}).
  - reflexivity.
  - done.
Defined.

Lemma bad_arguments_fail_after_save_witness :
  ∃ final_answer,
    (llm_with_tools "{}" sample_loads_args sample_tools sample_loads
       sample_dumps accept_all 2 true (λ _, inr bad_decision) failing_summary
       (sample_request "s") empty_db 1700000100).1
    = inl (internal_error "Expecting property name enclosed in double quotes")
    ∧ db_chat_messages
        (llm_with_tools "{}" sample_loads_args sample_tools sample_loads
           sample_dumps accept_all 2 true (λ _, inr bad_decision)
           failing_summary (sample_request "s") empty_db 1700000100).2
      = db_chat_messages empty_db
        ++ new_rows sample_dumps "s"
             (Turn.tool_batch "{}" sample_loads_args sample_tools
                (sample_request "s") bad_decision final_answer)
             (db_next_id empty_db) 1700000100.
Proof.
  apply (bad_arguments_fail_after_save "{}" sample_loads_args sample_tools
           sample_loads sample_dumps accept_all 2 true (λ _, inr bad_decision)
           failing_summary (sample_request "s") empty_db 1700000100
           bad_decision "Expecting property name enclosed in double quotes").
  - reflexivity.
  - reflexivity.
  - reflexivity.
  - done.
Defined.

Lemma tool_batch_passes_validator_witness :
  validate (Turn.tool_batch "{}" sample_loads_args sample_tools
              (sample_request "s") asked_decision "2+2 is 4")
  = Some (Turn.tool_batch "{}" sample_loads_args sample_tools
            (sample_request "s") asked_decision "2+2 is 4").
Proof.
  apply (tool_batch_passes_validator "{}" sample_loads_args sample_tools
           (sample_request "s") asked_decision "2+2 is 4").
  repeat constructor; done.
Defined.

End TurnBranches.

(** * Sessions *)

Module SessionExtras.
Import History HistoryFacts Sessions Samples World MoreWorld.

Section Service.
Context (default_system_prompt : string).

#[local] Abbreviation get_or_create_session :=
  (Sessions.get_or_create_session default_system_prompt).
#[local] Abbreviation get_or_create_session_prompt :=
  (Sessions.get_or_create_session_prompt default_system_prompt).
#[local] Abbreviation prompt_or_default :=
  (Sessions.prompt_or_default default_system_prompt).

Lemma find_session_Some session_id table session :
  find_session session_id table = Some session →
  cs_session_id session = session_id ∧ session ∈ st_chat_sessions table.
Proof.
  unfold find_session.
  destruct (list_find _ _) as [[i s]|] eqn:Hfind; [|done].
  intros [= <-]. apply list_find_Some in Hfind as (Hi & Hs & _).
  split; [done|]. by eapply list_elem_of_lookup_2.
Qed.

Lemma find_session_None session_id table :
  find_session session_id table = None →
  session_id ∉ cs_session_id <$> st_chat_sessions table.
Proof.
  unfold find_session.
  destruct (list_find _ _) as [[i s]|] eqn:Hfind; [done|]. intros _.
  apply list_find_None in Hfind. rewrite list.Forall_forall in Hfind.
  intros (s & Hs & Hin)%list_elem_of_fmap. by apply (Hfind s).
Qed.

Lemma find_session_created session_id table session :
  find_session session_id table = None →
  cs_session_id session = session_id →
  find_session session_id
    {| st_chat_sessions := st_chat_sessions table ++ [session];
       st_next_id := st_next_id table + 1 |}
  = Some session.
Proof.
  unfold find_session. simpl. intros Hnone Hs.
  destruct (list_find _ (st_chat_sessions table)) eqn:Hfind; [done|].
  rewrite list_find_app_r by done. simpl.
  by rewrite decide_True.
Qed.

Lemma get_or_create_session_found session_id table :
  find_session session_id (get_or_create_session session_id table).2
  = Some (get_or_create_session session_id table).1.
Proof.
  unfold Sessions.get_or_create_session.
  destruct (find_session session_id table) eqn:Hfind; simpl; [done|].
  by apply find_session_created.
Qed.

Lemma get_or_create_session_again session_id table :
  get_or_create_session session_id
    (get_or_create_session session_id table).2
  = get_or_create_session session_id table
  ∧ cs_session_id (get_or_create_session session_id table).1 = session_id.
Proof.
  pose proof (get_or_create_session_found session_id table) as Hfound.
  split.
  - unfold Sessions.get_or_create_session at 1. rewrite Hfound.
    by destruct (get_or_create_session session_id table).
  - by apply find_session_Some in Hfound as [? _].
Qed.

(** X19 — Asking twice for a session creates it at most once: the second call
    finds the session of the first and leaves the table alone. *)
Theorem get_or_create_session_idempotent session_id table :
  get_or_create_session session_id
    (get_or_create_session session_id table).2
  = get_or_create_session session_id table
  ∧ cs_session_id (get_or_create_session session_id table).1 = session_id.
Proof. apply get_or_create_session_again. Qed.

Lemma set_prompt_session_ids session prompt table :
  cs_session_id <$> st_chat_sessions (set_prompt session prompt table)
  = cs_session_id <$> st_chat_sessions table.
Proof.
  unfold set_prompt. simpl. rewrite <- list_fmap_compose.
  apply list_fmap_ext. intros i s _. simpl. by case_bool_decide.
Qed.

(** X20 — The session ids of the table stay distinct, as the unique constraint
    of the column asks. *)
Theorem session_ids_stay_unique session_id table requested_prompt :
  NoDup (cs_session_id <$> st_chat_sessions table) →
  NoDup (cs_session_id
           <$> st_chat_sessions
                 (get_or_create_session_prompt session_id table
                    requested_prompt).2).
Proof.
  intros Hnodup.
  assert (NoDup (cs_session_id
                   <$> st_chat_sessions
                         (get_or_create_session session_id table).2))
    as Hcreated.
  { unfold Sessions.get_or_create_session.
    destruct (find_session session_id table) eqn:Hfind; simpl; [done|].
    rewrite fmap_app. apply NoDup_app. split; [done|]. split.
    - intros x Hx ->%list_elem_of_singleton.
      by apply (find_session_None session_id table).
    - apply NoDup_singleton. }
  unfold Sessions.get_or_create_session_prompt.
  destruct (get_or_create_session session_id table) as [session table'].
  destruct (_ && _); [|done].
  cbn [snd]. by rewrite set_prompt_session_ids.
Qed.

Lemma find_session_set_prompt session_id table session prompt :
  find_session session_id table = Some session →
  find_session session_id (set_prompt session prompt table)
  = Some {| cs_id := cs_id session; cs_session_id := cs_session_id session;
            cs_system_prompt := Some prompt |}.
Proof.
  unfold find_session, set_prompt. simpl. rewrite list_find_fmap.
  intros Hfind.
  rewrite (list_find_ext _ (λ s, cs_session_id s = session_id)).
  2:{ intros s. simpl. by case_bool_decide. }
  destruct (list_find _ (st_chat_sessions table)) as [[i s]|]; [|done].
  simpl in *. simplify_eq. by rewrite bool_decide_true.
Qed.

(** X21 — A requested prompt is returned and kept: the call answers with it, and
    a later call for the same session without a prompt answers with it
    again and changes nothing. *)
Theorem requested_prompt_is_kept session_id table requested_prompt :
  truthy requested_prompt = true →
  let answer :=
    get_or_create_session_prompt session_id table requested_prompt in
  answer.1 = default "" requested_prompt
  ∧ get_or_create_session_prompt session_id answer.2 None = answer.
Proof.
  intros Hreq answer. unfold answer, Sessions.get_or_create_session_prompt.
  pose proof (get_or_create_session_found session_id table) as Hfound.
  pose proof (get_or_create_session_again session_id table) as [Hidem _].
  destruct (get_or_create_session session_id table) as [session table'].
  simpl in *. rewrite Hreq. simpl.
  destruct requested_prompt as [prompt|]; [|done]. simpl.
  case_bool_decide as Hsame; simpl.
  - unfold Sessions.prompt_or_default. rewrite Hsame, Hreq. simpl.
    split; [done|]. rewrite Hidem. simpl.
    unfold Sessions.prompt_or_default. by rewrite Hsame, Hreq.
  - unfold Sessions.prompt_or_default at 1. rewrite Hreq. simpl.
    split; [done|].
    unfold Sessions.get_or_create_session.
    rewrite (find_session_set_prompt _ _ _ prompt Hfound). simpl.
    unfold Sessions.prompt_or_default. by rewrite Hreq.
Qed.

(** X22 — The prompt handed back: the requested prompt when one is given and not
    empty; otherwise the prompt stored for the session when there is one and
    it is not empty; otherwise the configured default.  So it is never empty
    when the configured default is not. *)
Theorem session_prompt_never_empty session_id table requested_prompt :
  default_system_prompt ≠ "" →
  let answer :=
    (get_or_create_session_prompt session_id table requested_prompt).1 in
  answer
  = (if truthy requested_prompt then default "" requested_prompt
     else match find_session session_id table ≫= cs_system_prompt with
          | Some stored =>
              if bool_decide (stored = "") then default_system_prompt
              else stored
          | None => default_system_prompt
          end)
  ∧ answer ≠ "".
Proof.
  intros Hdefault answer.
  assert (∀ system_prompt, prompt_or_default system_prompt ≠ "") as Hne.
  { intros [prompt|]; unfold Sessions.prompt_or_default, truthy; simpl;
      [|done].
    by case_bool_decide. }
  split.
  2:{ unfold answer, Sessions.get_or_create_session_prompt.
      destruct (get_or_create_session session_id table) as [session table'].
      destruct (_ && _); simpl; apply Hne. }
  unfold answer, Sessions.get_or_create_session_prompt,
    Sessions.get_or_create_session.
  destruct (find_session session_id table) as [session|] eqn:Hfound; simpl.
  - destruct (truthy requested_prompt) eqn:Hreq; simpl.
    + case_bool_decide as Hsame; simpl.
      * unfold Sessions.prompt_or_default. by rewrite Hsame, Hreq.
      * unfold Sessions.prompt_or_default. by rewrite Hreq.
    + unfold Sessions.prompt_or_default, truthy.
      destruct (cs_system_prompt session) as [stored|]; simpl; [|done].
      by case_bool_decide.
  - destruct (truthy requested_prompt) eqn:Hreq; simpl.
    + case_bool_decide as Hsame; simpl.
      * simpl in Hsame. subst requested_prompt.
        unfold Sessions.prompt_or_default. by rewrite Hreq.
      * unfold Sessions.prompt_or_default. by rewrite Hreq.
    + unfold Sessions.prompt_or_default, truthy. simpl.
      by case_bool_decide.
Qed.

End Service.

Section Clear.
Context (json_loads : string → option Json) (max_history_messages : nat).

#[local] Abbreviation get_history :=
  (History.get_history json_loads max_history_messages).

(** X23 — After [clear_session] the history of the session is empty. *)
Theorem clear_session_empties_history session_id db :
  get_history (db_chat_messages (clear_session session_id db).2) session_id
  = [].
Proof.
  unfold History.get_history, History.window_rows, select_recent,
    session_messages_desc, clear_session. simpl.
  rewrite list_filter_filter, (StoreExtras.filter_none _ (db_chat_messages db)).
  - case_bool_decide; [done|].
    change (merge_sort newest_first []) with (@nil ChatMessage).
    by rewrite take_nil.
  - apply list.Forall_forall. intros row _ [? ?]. done.
Qed.

(** X24 — [clear_session] leaves the history of every other session as it was. *)
Theorem clear_session_keeps_other_sessions session_id db other :
  other ≠ session_id →
  get_history (db_chat_messages (clear_session session_id db).2) other
  = get_history (db_chat_messages db) other.
Proof.
  intros Hother.
  unfold History.get_history, History.window_rows, select_recent,
    session_messages_desc, clear_session. simpl.
  rewrite list_filter_filter_l; [done|]. intros row. congruence.
Qed.

End Clear.

Lemma requested_prompt_is_kept_witness :
  let answer :=
    Sessions.get_or_create_session_prompt "default prompt" "new"
      sample_sessions (Some "be formal") in
  answer.1 = "be formal"
  ∧ Sessions.get_or_create_session_prompt "default prompt" "new" answer.2 None
    = answer.
Proof.
  apply (requested_prompt_is_kept "default prompt" "new" sample_sessions
           (Some "be formal")).
  reflexivity.
Defined.

Lemma session_ids_stay_unique_witness :
  NoDup (cs_session_id
           <$> st_chat_sessions
                 (Sessions.get_or_create_session_prompt "default prompt" "new"
                    sample_sessions (Some "be formal")).2).
Proof.
  apply (session_ids_stay_unique "default prompt" "new" sample_sessions
           (Some "be formal")).
  apply (bool_decide_unpack _). vm_compute. exact I.
Defined.

Lemma session_prompt_never_empty_witness :
  let answer :=
    (Sessions.get_or_create_session_prompt "default prompt" "new"
       {| st_chat_sessions :=
            [ {| cs_id := 1; cs_session_id := "new";
                 cs_system_prompt := Some "" |} ];
          st_next_id := 2 |} None).1 in
  answer = "default prompt" ∧ answer ≠ "".
Proof.
  apply (session_prompt_never_empty "default prompt" "new"
           {| st_chat_sessions :=
                [ {| cs_id := 1; cs_session_id := "new";
                     cs_system_prompt := Some "" |} ];
              st_next_id := 2 |} None).
  done.
Defined.

Lemma clear_session_keeps_other_sessions_witness :
  History.get_history sample_loads 2
    (db_chat_messages (clear_session "s" stored_db).2) "other"
  = History.get_history sample_loads 2 (db_chat_messages stored_db) "other".
Proof.
  apply (clear_session_keeps_other_sessions sample_loads 2 "s" stored_db
           "other").
  done.
Defined.

End SessionExtras.

(** * The tool registry and the dispatch *)

Module RegistryExtras.
Import Dispatch DispatchFacts Registry World MoreWorld.

Section Registered.
Context {Args : Type}.
Implicit Types (funcs : list (Func Args)) (func : Func Args).

Lemma registered_snoc funcs func :
  registered (funcs ++ [func]) = register (registered funcs) func.
Proof. unfold registered. by rewrite foldl_app. Qed.

(** X25 — [get_all_schemas] lists one schema per registration, in the order of
    the registrations, also when a name is registered again. *)
Theorem schemas_in_registration_order funcs :
  ts_name <$> get_all_schemas (registered funcs) = f_name <$> funcs.
Proof.
  induction funcs as [|func funcs IH] using rev_ind; [done|].
  rewrite registered_snoc. unfold get_all_schemas in *. simpl.
  by rewrite !fmap_app, IH.
Qed.

(** X26 — [get_tool] answers with the function registered last under a name. *)
Theorem get_tool_latest funcs (name : string) :
  get_tool (registered funcs) name
  = last (filter (λ func, f_name func = name) funcs).
Proof.
  induction funcs as [|func funcs IH] using rev_ind; [done|].
  rewrite registered_snoc, filter_app. unfold get_tool in *. simpl.
  destruct (decide (f_name func = name)) as [<-|Hne].
  - rewrite lookup_insert_eq. rewrite filter_cons_True by done.
    by rewrite filter_nil, last_snoc.
  - rewrite lookup_insert_ne by done. rewrite filter_cons_False by done.
    by rewrite filter_nil, app_nil_r.
Qed.

Lemma advertised_lookup funcs (schema : ToolSchema) :
  schema ∈ get_all_schemas (registered funcs) →
  ∃ func, get_tool (registered funcs) (ts_name schema) = Some func
          ∧ f_name func = ts_name schema.
Proof.
  induction funcs as [|func funcs IH] using rev_ind.
  { by intros ?%elem_of_nil. }
  rewrite registered_snoc. unfold get_all_schemas, get_tool in *. simpl.
  intros [Hold| ->%list_elem_of_singleton]%elem_of_app.
  - destruct (decide (f_name func = ts_name schema)) as [Heq|Hne].
    + exists func. by rewrite <- Heq, lookup_insert_eq.
    + rewrite lookup_insert_ne by done. by apply IH.
  - exists func. simpl. by rewrite lookup_insert_eq.
Qed.

(** X27 — Every tool the schemas advertise can be looked up, under its own
    name. *)
Theorem advertised_tool_resolves funcs (schema : ToolSchema) :
  schema ∈ get_all_schemas (registered funcs) →
  ∃ func, get_tool (registered funcs) (ts_name schema) = Some func
          ∧ f_name func = ts_name schema.
Proof. apply advertised_lookup. Qed.

(** X28 — A call to an advertised tool is never answered with the text for an
    unknown tool: [execute_tool] parses the arguments and runs the
    registered function. *)
Theorem advertised_tool_is_executed funcs (schema : ToolSchema)
    (empty_args : Args) (json_loads_args : string → string + Args)
    (tool_call : ModelToolCall) :
  schema ∈ get_all_schemas (registered funcs) →
  mf_name (mtc_function tool_call) = ts_name schema →
  ∃ func,
    get_tool (registered funcs) (ts_name schema) = Some func
    ∧ execute_tool empty_args json_loads_args (callable (registered funcs))
        tool_call
      = tool_message (mtc_id tool_call) (ts_name schema)
          match parse_arguments empty_args json_loads_args
                  (mf_arguments (mtc_function tool_call)) with
          | inl e => "执行失败: " +:+ e
          | inr tool_args =>
              match f_call func tool_args with
              | Returned str_result => str_result
              | Raised e => "执行失败: " +:+ e
              end
          end.
Proof.
  intros Hschema Hname.
  destruct (advertised_lookup funcs schema Hschema)
    as (func & Hfunc & _).
  exists func. split; [done|].
  unfold execute_tool, callable. rewrite Hname, Hfunc. simpl.
  destruct (parse_arguments _ _ _); [done|]. by destruct (f_call func _).
Qed.

(** X29 — In a generated schema every required name is a declared parameter, in
    the order of the signature, and every declared type is one of the four
    JSON types of [TYPE_MAPPING]. *)
Theorem schema_of_well_formed func :
  ts_required (schema_of func) `sublist_of` (ts_properties (schema_of func)).*1
  ∧ Forall (λ property, property.2 ∈ ["string"; "integer"; "number"; "boolean"])
           (ts_properties (schema_of func)).
Proof.
  unfold schema_of. simpl. split.
  - rewrite <- list_fmap_compose.
    apply (fmap_sublist p_name), sublist_filter.
  - apply Forall_fmap, list.Forall_forall. intros param _. simpl.
    unfold type_mapping. repeat case_bool_decide; set_solver.
Qed.

End Registered.

Lemma advertised_tool_resolves_witness :
  ∃ func, get_tool (registered [calculate_func; search_func]) "search_web"
          = Some func
          ∧ f_name func = "search_web".
Proof.
  apply (advertised_tool_resolves [calculate_func; search_func]
           (schema_of search_func)).
  unfold get_all_schemas, registered. simpl. repeat constructor.
Defined.

Lemma advertised_tool_is_executed_witness :
  ∃ func,
    get_tool (registered [calculate_func; search_func]) "calculate"
    = Some func
    ∧ execute_tool "{}" sample_loads_args
        (callable (registered [calculate_func; search_func]))
        (model_call "call_2" "calculate" two_plus_two)
      = tool_message "call_2" "calculate"
          match parse_arguments "{}" sample_loads_args two_plus_two with
          | inl e => "执行失败: " +:+ e
          | inr tool_args =>
              match f_call func tool_args with
              | Returned str_result => str_result
              | Raised e => "执行失败: " +:+ e
              end
          end.
Proof.
  apply (advertised_tool_is_executed [calculate_func; search_func]
           (schema_of calculate_func) "{}" sample_loads_args
           (model_call "call_2" "calculate" two_plus_two)).
  - unfold get_all_schemas, registered. simpl. repeat constructor.
  - reflexivity.
Defined.

End RegistryExtras.

Module DispatchExtras.
Import Dispatch DispatchFacts World.

(** X30 — [gather] returns exactly when every task has finished: a task that is
    still running keeps the whole batch waiting. *)
Theorem gather_returns_iff_all_complete {A : Type} (completion : list nat)
    (results : list A) :
  is_Some (gather completion results)
  ↔ ∀ i, i < length results → i ∈ completion.
Proof.
  split.
  - intros [rs Hrs] i Hi.
    destruct (decide (i ∈ completion)) as [|Hnot]; [done|].
    by rewrite (gather_incomplete completion results i Hi Hnot) in Hrs.
  - intros Hall. rewrite (gather_all_complete completion results Hall).
    by eexists.
Qed.

End DispatchExtras.
